(** * Peteat realtime messaging: relay, read-state tracker and client socket manager

    A shallow embedding of
    - [backend/models/Conversation.js] and [backend/models/Message.js]
      (the two Mongoose schemas and the Message pre-save hook),
    - [backend/socket.js] (presence registry and the event handlers),
    - the message routes of [backend/routes/messages.js],
    - [utils/socket.ts] (the client-side socket manager),
    followed by the properties of the messaging specification.

    Conventions.  The document store is a record of two collections kept
    in natural (insertion) order; every handler is a function from the
    store (and the presence registry) to the new store and the list of
    events it emits, in emission order.  [new Date()] is the explicit
    argument [now].  An exception thrown inside a handler's [try] block
    is a [Throw] of the [result] type and is turned into what the
    [catch] block does. *)

From stdpp Require Import gmap strings list pretty.
From Stdlib Require Import ZArith NArith Sorted.

Set Default Proof Using "Type".

(* ===================================================================== *)
(** * JavaScript strings *)
(* ===================================================================== *)

Module Js.

(** Message text is a sequence of UTF-16 code units, as in the engine. *)
Definition js_string := list N.

(** ECMAScript [WhiteSpace] and [LineTerminator] code units, the ones
    [String.prototype.trim] strips. *)
Definition is_white_space (c : N) : bool :=
  ((9 <=? c) && (c <=? 13) || (c =? 32) || (c =? 160) || (c =? 5760)
   || (8192 <=? c) && (c <=? 8202) || (c =? 8232) || (c =? 8233)
   || (c =? 8239) || (c =? 8287) || (c =? 12288) || (c =? 65279))%N.

Fixpoint trim_start (s : js_string) : js_string :=
  match s with
  | c :: s' => if is_white_space c then trim_start s' else s
  | [] => []
  end.

Definition trim_end (s : js_string) : js_string :=
  rev (trim_start (rev s)).

Definition trim (s : js_string) : js_string := trim_end (trim_start s).

(** [s === ''] *)
Definition is_empty (s : js_string) : bool :=
  match s with [] => true | _ => false end.

(** A literal of ASCII characters as code units. *)
Fixpoint lit (s : string) : js_string :=
  match s with
  | EmptyString => []
  | String a s' => Ascii.N_of_ascii a :: lit s'
  end.

(** The array [[a, b].sort()] of two identifier strings: the default
    sort compares code units, which on identifiers is [String.leb]. *)
Definition sort2 (a b : string) : list string :=
  if String.leb a b then [a; b] else [b; a].

End Js.

Import Js.

(* ===================================================================== *)
(** * The object-identifier library (external to the repository) *)
(* ===================================================================== *)

(** [mongoose.Types.ObjectId.isValid], the cast of a string to an
    identifier and the identifier generator of the driver are not part
    of the repository: they are parameters.  A value that [isValid]
    refuses cannot be cast to an identifier, and a query or a save that
    mentions it throws.  A value that [isValid] accepts denotes the
    identifier whose string is [canonical s]
    ([new ObjectId(s).toString()], twenty-four lower-case hexadecimal
    digits): every identifier path of a stored document holds that
    string, and a query compares with it, so two spellings of one
    identifier find the same documents. *)
Class ObjectIdLib := {
  isValid : string -> bool;
  canonical : string -> string;
  new_oid : nat -> string
}.

Inductive exn :=
| CastError (path : string)
| ValidationError (path : string).

Inductive result (A : Type) :=
| Ok (a : A)
| Throw (e : exn).
Arguments Ok {A} a.
Arguments Throw {A} e.

(** The handlers sequence store calls with the bind of this monad. *)
#[global] Instance result_ret : MRet result := fun _ a => Ok a.

#[global] Instance result_bind : MBind result := fun _ _ k r =>
  match r with
  | Ok a => k a
  | Throw e => Throw e
  end.

(* ===================================================================== *)
(** * Documents *)
(* ===================================================================== *)

(** [models/Conversation.js].  [timestamps: true] adds [createdAt] and
    [updatedAt]. *)
Module Conversation.
Record t := mk {
  _id : string;
  participants : list string;
  lastMessage : option js_string;
  lastMessageId : option string;
  lastMessageText : option js_string;
  lastMessageFrom : option string;
  lastMessageAt : Z;
  unreadCount : Z;
  createdAt : Z;
  updatedAt : Z
}.
End Conversation.

(** [models/Message.js].  The [text] path is an alias of [content]
    through its getter and setter and is not stored separately here. *)
Module Message.
Record t := mk {
  _id : string;
  conversation : option string;
  sender : string;
  receiver : string;
  content : js_string;
  timestamp : Z;
  createdAt : Z;
  updatedAt : Z;
  read : bool;
  readAt : option Z;
  attachments : list string
}.
End Message.

#[global] Instance Message_eq_dec : EqDecision Message.t.
Proof. solve_decision. Defined.

(** The two collections, and the count of identifiers generated so far. *)
Record db := mkDb {
  messages : list Message.t;
  conversations : list Conversation.t;
  oids : nat
}.

Definition empty_db : db := mkDb [] [] 0.

(* ===================================================================== *)
(** * Store operations *)
(* ===================================================================== *)

Section Store.
Context `{ObjectIdLib}.

Definition cast_oid (path s : string) : result string :=
  if isValid s then Ok (canonical s) else Throw (CastError path).

(** The filter [{ participants: { $all: ps, $size: 2 } }]. *)
Definition match_pair (ps : list string) (c : Conversation.t) : bool :=
  (length (Conversation.participants c) =? 2)%nat
  && forallb (fun p => bool_decide (p ∈ Conversation.participants c)) ps.

(** [new Conversation({ participants })] with the schema defaults
    ([lastMessageAt: Date.now], [unreadCount: 0]) and the timestamps. *)
Definition new_Conversation (now : Z) (ps : list string) (d : db)
  : Conversation.t :=
  Conversation.mk (new_oid (oids d)) ps None None None None now 0 now now.

Definition insert_conversation (c : Conversation.t) (d : db) : db :=
  mkDb (messages d) (conversations d ++ [c]) (S (oids d)).

(** Replace the first element that satisfies [p] by its image under [f]:
    what an update of one document by a filter does on a collection. *)
Fixpoint update_first {A} (p : A -> bool) (f : A -> A) (l : list A) : list A :=
  match l with
  | [] => []
  | x :: l' => if p x then f x :: l' else x :: update_first p f l'
  end.

(** [messageSchema.pre('save')]: a message saved without a conversation
    gets the conversation of its two users, found or else created.  The
    hook runs after validation, so [sender] and [receiver] are set and
    are identifiers; the [catch] swallows what the store throws. *)
Definition pre_save (now : Z) (m : Message.t) (d : db) : Message.t * db :=
  match Message.conversation m with
  | Some _ => (m, d)
  | None =>
      let participants := [Message.sender m; Message.receiver m] in
      let with_conversation (cid : string) :=
        Message.mk (Message._id m) (Some cid) (Message.sender m)
          (Message.receiver m) (Message.content m) (Message.timestamp m)
          (Message.createdAt m) (Message.updatedAt m) (Message.read m)
          (Message.readAt m) (Message.attachments m) in
      match find (match_pair participants) (conversations d) with
      | Some c => (with_conversation (Conversation._id c), d)
      | None =>
          let c := new_Conversation now participants d in
          (with_conversation (Conversation._id c), insert_conversation c d)
      end
  end.

(** What a handler assigns to an identifier path of a new document: a
    string, which the schema casts, or the identifier of a stored
    document, which is kept as it is. *)
Inductive idval :=
| Str (s : string)
| Oid (o : string).

Definition cast_val (path : string) (v : idval) : result string :=
  match v with
  | Str s => cast_oid path s
  | Oid o => Ok o
  end.

Definition valid_val (v : idval) : bool :=
  match v with
  | Str s => isValid s
  | Oid _ => true
  end.

(** The identifier that a value which casts is stored as. *)
Definition stored_id (v : idval) : string :=
  match v with
  | Str s => canonical s
  | Oid o => o
  end.

(** The fields a handler passes to [new Message({...})]. *)
Record MessageFields := mkFields {
  f_conversation : option string;
  f_sender : string;
  f_receiver : idval;
  f_content : js_string;
  f_attachments : list string
}.

(** Schema validation of a new message: the identifier paths must cast,
    and [content] is required (a non-empty string) exactly when there is
    no attachment. *)
Definition validate_message (f : MessageFields) : result unit :=
  _ ← match f_conversation f with
      | Some c => cast_oid "conversation" c
      | None => Ok ""
      end;
  _ ← cast_oid "sender" (f_sender f);
  _ ← cast_val "receiver" (f_receiver f);
  if is_empty (f_content f) && bool_decide (f_attachments f = [])
  then Throw (ValidationError "content")
  else Ok tt.

(** [new Message(f).save()]: validate, run the pre-save hook, insert.
    The document holds the identifiers that the fields cast to. *)
Definition Message_save (now : Z) (f : MessageFields) (d : db)
  : result (Message.t * db) :=
  _ ← validate_message f;
  let m := Message.mk (new_oid (oids d)) (canonical <$> f_conversation f)
             (canonical (f_sender f)) (stored_id (f_receiver f))
             (f_content f) now now now false None (f_attachments f) in
  let d1 := mkDb (messages d) (conversations d) (S (oids d)) in
  let '(m', d2) := pre_save now m d1 in
  Ok (m', mkDb (messages d2 ++ [m']) (conversations d2) (oids d2)).

(** [Conversation.findById(id)] *)
Definition Conversation_findById (id : string) (d : db)
  : result (option Conversation.t) :=
  i ← cast_oid "_id" id;
  Ok (find (fun c => bool_decide (Conversation._id c = i)) (conversations d)).

(** [Message.updateMany(filter, update)] *)
Definition Message_updateMany (filter : Message.t -> bool)
    (update : Message.t -> Message.t) (d : db) : db :=
  mkDb ((fun m => if filter m then update m else m) <$> messages d)
       (conversations d) (oids d).

(** [{ _id: { $in: messageIds } }]: every listed identifier must cast. *)
Definition cast_ids (ids : list string) : result (list string) :=
  if forallb isValid ids then Ok (canonical <$> ids)
  else Throw (CastError "_id").

Definition id_in (ids : list string) (m : Message.t) : bool :=
  bool_decide (Message._id m ∈ ids).

End Store.

(* ===================================================================== *)
(** * The relay: [backend/socket.js] *)
(* ===================================================================== *)

(** Where an event goes: [socket.emit] answers the calling connection,
    [io.to(r).emit] publishes to room [r].  Every connection is in the
    room named by its own socket id and, after [socket.join(userId)], in
    the room named by its user. *)
Inductive target :=
| ToSender
| ToRoom (room : string).

(** The inbox summary of [conversationUpdated]. *)
Record Summary := mkSummary {
  s_conversationId : string;
  s_userId : string;
  s_lastMessage : js_string;
  s_timestamp : Z;
  s_unread : Z
}.

Inductive payload :=
| PError (message : string) (error : option exn)
| PMessage (m : Message.t)
| PNewMessage (conversationId : string) (m : Message.t)
    (sender_object : option string)
| PSummary (s : Summary)
| PReadReceipt (messageIds : option (list string)).

Record emission := Emit {
  to : target;
  event : string;
  data : payload
}.

(** The relay's state: the store, the [onlineUsers] map from user to
    socket id, and the room membership kept by the transport as pairs
    (room, socket id). *)
Record server := mkServer {
  store : db;
  onlineUsers : gmap string string;
  rooms : list (string * string)
}.

(** The payload of [sendMessage]; an absent field is [None]. *)
Record SendMessage := mkSend {
  sm_receiver : option string;
  sm_content : option js_string;
  sm_attachments : option (list string)
}.

(** The payload of [newMessage]. *)
Record NewMessage := mkNew {
  nm_conversationId : option string;
  nm_text : option js_string
}.

(** The attachment marker: U+1F4CE as a surrogate pair, then the word. *)
Definition ATTACHMENT_PREVIEW : js_string :=
  [55357%N; 56526%N] ++ lit " Attachment".

(** [if (x)] on the result of [Map.get]: a missing entry and the empty
    string are both falsy. *)
Definition truthy (o : option string) : option string :=
  match o with
  | Some h => if bool_decide (h = "") then None else Some h
  | None => None
  end.

(** [content && content.trim() !== '' ? content
     : (attachments.length > 0 ? ATTACHMENT : '')], the preview text of
    both [sendMessage] and [POST /]. *)
Definition preview_of (content : js_string) (attachments : list string)
  : js_string :=
  if negb (is_empty content) && negb (is_empty (trim content)) then content
  else if (0 <? length attachments)%nat then ATTACHMENT_PREVIEW else [].

Section Relay.
Context `{ObjectIdLib}.

(** [io.on('connection')]: record the socket, join the user's room. *)
Definition connection (sid userId : string) (s : server) : server :=
  mkServer (store s) (<[userId := sid]> (onlineUsers s))
           ((userId, sid) :: (sid, sid) :: rooms s).

(** [socket.on('disconnect')]: the transport drops the socket from its
    rooms; the handler deletes the user's presence entry. *)
Definition disconnect (sid userId : string) (s : server) : server :=
  mkServer (store s) (delete userId (onlineUsers s))
           (filter (fun rs => rs.2 ≠ sid) (rooms s)).

(** The [$set] of both send handlers on a conversation document. *)
Definition set_last (now : Z) (preview : js_string) (from : string)
    (inc : Z) (c : Conversation.t) : Conversation.t :=
  Conversation.mk (Conversation._id c) (Conversation.participants c)
    (Some preview) (Conversation.lastMessageId c) (Some preview) (Some from)
    now (Conversation.unreadCount c + inc) (Conversation.createdAt c) now.

(** [Conversation.findOneAndUpdate(filter, { $set, $setOnInsert },
    { new: true, upsert: true })] of [sendMessage], one store operation:
    the first match is updated, and with no match the document is
    inserted with the [$setOnInsert] participants and the defaults. *)
Definition Conversation_upsert (now : Z) (ps : list string)
    (preview : js_string) (from : string) (on_insert : list string) (d : db)
  : Conversation.t * db :=
  match find (match_pair ps) (conversations d) with
  | Some c =>
      (set_last now preview from 0 c,
       mkDb (messages d)
            (update_first (match_pair ps) (set_last now preview from 0)
               (conversations d))
            (oids d))
  | None =>
      let c := Conversation.mk (new_oid (oids d)) on_insert (Some preview)
                 None (Some preview) (Some from) now 0 now now in
      (c, insert_conversation c d)
  end.

(** [Conversation.findByIdAndUpdate(id, { ..., $inc: { unreadCount: 1 } })]
    of [newMessage], for the identifiers that [conversationId] and
    [userId] cast to. *)
Definition Conversation_touch (now : Z) (id : string) (text : js_string)
    (from : string) (d : db) : db :=
  mkDb (messages d)
       (update_first (fun c => bool_decide (Conversation._id c = id))
          (set_last now text from 1) (conversations d))
       (oids d).

Definition error (message : string) (e : option exn) : emission :=
  Emit ToSender "error" (PError message e).

(** The body of the [try] of [sendMessage] after the two validations. *)
Definition sendMessage_try (userId : string) (now : Z) (receiver : string)
    (content : js_string) (attachments : list string) (s : server)
  : result (server * list emission) :=
  '(savedMessage, d1) ←
     Message_save now
       (mkFields None userId (Str receiver) content attachments) (store s);
  let lastMessagePreview := preview_of content attachments in
  let senderObjectId :=
    if isValid userId then canonical userId else userId in
  let receiverObjectId :=
    if isValid receiver then canonical receiver else receiver in
  let participantsSorted := sort2 senderObjectId receiverObjectId in
  let '(convoDoc, d2) :=
    Conversation_upsert now participantsSorted lastMessagePreview
      senderObjectId [senderObjectId; receiverObjectId] d1 in
  let cid := Conversation._id convoDoc in
  let receiverSocketId := truthy (onlineUsers s !! receiver) in
  let convoSummary :=
    mkSummary cid receiver lastMessagePreview (Message.timestamp savedMessage)
      0 in
  let theirSummary :=
    mkSummary cid userId lastMessagePreview (Message.timestamp savedMessage)
      1 in
  Ok (mkServer d2 (onlineUsers s) (rooms s),
      match receiverSocketId with
      | Some h =>
          [Emit (ToRoom h) "receiveMessage" (PMessage savedMessage);
           Emit (ToRoom h) "newMessage" (PNewMessage cid savedMessage None)]
      | None =>
          [Emit (ToRoom receiver) "receiveMessage" (PMessage savedMessage);
           Emit (ToRoom receiver) "newMessage"
             (PNewMessage cid savedMessage None)]
      end
      ++ [Emit ToSender "messageSaved" (PMessage savedMessage);
          Emit ToSender "conversationUpdated" (PSummary convoSummary)]
      ++ match receiverSocketId with
         | Some h =>
             [Emit (ToRoom h) "conversationUpdated" (PSummary theirSummary)]
         | None => []
         end
      ++ [Emit (ToRoom receiver) "conversationUpdated" (PSummary theirSummary);
          Emit ToSender "newMessage" (PNewMessage cid savedMessage None);
          Emit (ToRoom receiver) "newMessage"
            (PNewMessage cid savedMessage None)]).

(** [socket.on('sendMessage')].  The only store call that can throw is
    the save, before anything is written, so the [catch] finds the state
    as it was. *)
Definition sendMessage (userId : string) (now : Z) (ev : SendMessage)
    (s : server) : server * list emission :=
  let content := default [] (sm_content ev) in
  let attachments := default [] (sm_attachments ev) in
  match truthy (sm_receiver ev) with
  | None =>
      (s, [error "receiver and either content or attachments is required"
             None])
  | Some receiver =>
      if is_empty (trim content) && (length attachments =? 0)%nat
      then (s, [error "receiver and either content or attachments is required"
                  None])
      else if negb (isValid receiver)
      then (s, [error "Invalid receiver ID format" None])
      else match sendMessage_try userId now receiver content attachments s with
           | Ok r => r
           | Throw e => (s, [error "Failed to send message" (Some e)])
           end
  end.

(** The body of the [try] of [newMessage] after the validation. *)
Definition newMessage_try (userId : string) (now : Z)
    (conversationId : string) (text : js_string) (s : server)
  : result (server * list emission) :=
  conversation ← Conversation_findById conversationId (store s);
  match conversation with
  | None => Ok (s, [error "Conversation not found" None])
  | Some conversation =>
      match find (fun p => negb (bool_decide (p = userId)))
                 (Conversation.participants conversation) with
      | None => Ok (s, [error "Recipient not found in conversation" None])
      | Some recipient =>
          '(savedMessage, d1) ←
             Message_save now
               (mkFields (Some conversationId) userId (Oid recipient)
                  (trim text) [])
               (store s);
          let d2 := Conversation_touch now (canonical conversationId)
                      (trim text) (canonical userId) d1 in
          let formatted :=
            PNewMessage conversationId savedMessage (Some userId) in
          let recipientSocketId := truthy (onlineUsers s !! recipient) in
          let convoSummary :=
            mkSummary conversationId recipient (trim text) now 0 in
          let theirSummary :=
            mkSummary conversationId userId (trim text) now 1 in
          Ok (mkServer d2 (onlineUsers s) (rooms s),
              [Emit ToSender "newMessage" formatted]
              ++ match recipientSocketId with
                 | Some h =>
                     [Emit (ToRoom h) "newMessage" formatted;
                      Emit (ToRoom h) "receiveMessage" (PMessage savedMessage)]
                 | None => []
                 end
              ++ [Emit (ToRoom recipient) "newMessage" formatted;
                  Emit (ToRoom recipient) "receiveMessage"
                    (PMessage savedMessage);
                  Emit ToSender "messageSaved" (PMessage savedMessage);
                  Emit ToSender "conversationUpdated" (PSummary convoSummary)]
              ++ match recipientSocketId with
                 | Some h =>
                     [Emit (ToRoom h) "conversationUpdated"
                        (PSummary theirSummary)]
                 | None => []
                 end
              ++ [Emit (ToRoom recipient) "conversationUpdated"
                    (PSummary theirSummary)])
      end
  end.

(** [!x] on an optional text: absent or empty. *)
Definition falsy_text (o : option js_string) : bool :=
  match o with
  | Some t => is_empty t
  | None => true
  end.

(** [socket.on('newMessage')]. *)
Definition newMessage (userId : string) (now : Z) (ev : NewMessage)
    (s : server) : server * list emission :=
  match truthy (nm_conversationId ev), nm_text ev with
  | Some conversationId, Some text =>
      if falsy_text (nm_text ev) || is_empty (trim text)
      then (s, [error "Conversation ID and text are required" None])
      else match newMessage_try userId now conversationId text s with
           | Ok r => r
           | Throw e => (s, [error "Failed to send message" (Some e)])
           end
  | _, _ => (s, [error "Conversation ID and text are required" None])
  end.

(** The [$set] of [markRead]: [read] and [readAt]. *)
Definition set_read_at (now : Z) (m : Message.t) : Message.t :=
  Message.mk (Message._id m) (Message.conversation m) (Message.sender m)
    (Message.receiver m) (Message.content m) (Message.timestamp m)
    (Message.createdAt m) now true (Some now) (Message.attachments m).

(** [socket.on('markRead')]: a store error is logged and nothing is
    emitted.  An absent [messageIds] does not throw: [$in] of an absent
    value is cast to a list holding that absent value, which no [_id]
    equals, so nothing is matched and the receipt is emitted. *)
Definition markRead (now : Z) (messageIds : option (list string))
    (s : server) : server * list emission :=
  match messageIds with
  | None => (s, [Emit ToSender "readReceipt" (PReadReceipt None)])
  | Some listed =>
      match cast_ids listed with
      | Ok ids =>
          (mkServer
             (Message_updateMany (id_in ids) (set_read_at now) (store s))
             (onlineUsers s) (rooms s),
           [Emit ToSender "readReceipt" (PReadReceipt (Some listed))])
      | Throw _ => (s, [])
      end
  end.

End Relay.

(* ===================================================================== *)
(** * The message routes: [backend/routes/messages.js] *)
(* ===================================================================== *)

Inductive body :=
| BErrors (errors : list string)
| BMessage (message : string)
| BSaved (m : Message.t)
| BMarked (count : nat)
| BData (data : list Message.t)
| BThrown (e : exn)
| BFailure (message : string) (e : exn).

Record response := Respond {
  status : nat;
  payload_of : body
}.

(** The body of [POST /]. *)
Record PostMessage := mkPost {
  pm_sender : option string;
  pm_receiver : option string;
  pm_content : option js_string;
  pm_attachments : option (list string)
}.

(** [.sort({ createdAt: 1 })], stable. *)
Fixpoint insert_by_createdAt (m : Message.t) (l : list Message.t)
  : list Message.t :=
  match l with
  | [] => [m]
  | x :: l' =>
      if (Message.createdAt m <? Message.createdAt x)%Z then m :: l
      else x :: insert_by_createdAt m l'
  end.

Definition sort_by_createdAt (l : list Message.t) : list Message.t :=
  foldl (fun acc m => insert_by_createdAt m acc) [] l.

(** The [$set] of [PUT /mark-read]: [read] only. *)
Definition set_read (now : Z) (m : Message.t) : Message.t :=
  Message.mk (Message._id m) (Message.conversation m) (Message.sender m)
    (Message.receiver m) (Message.content m) (Message.timestamp m)
    (Message.createdAt m) now true (Message.readAt m) (Message.attachments m).

(** What [POST /] assigns to the conversation document before
    [convo.save()]. *)
Definition set_meta (now : Z) (preview : js_string) (from : string) (at_ : Z)
    (c : Conversation.t) : Conversation.t :=
  Conversation.mk (Conversation._id c) (Conversation.participants c)
    (Some preview) (Conversation.lastMessageId c)
    (Conversation.lastMessageText c) (Some from) at_
    (Conversation.unreadCount c) (Conversation.createdAt c) now.

(** [{ unreadCount: 0 }] of the history route. *)
Definition reset_unread (now : Z) (c : Conversation.t) : Conversation.t :=
  Conversation.mk (Conversation._id c) (Conversation.participants c)
    (Conversation.lastMessage c) (Conversation.lastMessageId c)
    (Conversation.lastMessageText c) (Conversation.lastMessageFrom c)
    (Conversation.lastMessageAt c) 0 (Conversation.createdAt c) now.

Section Routes.
Context `{ObjectIdLib}.

(** [convo.save()] of a document that was found: the paths assigned
    since it was loaded are set on the stored document of that [_id]. *)
Definition Conversation_save (id : string)
    (assigned : Conversation.t -> Conversation.t) (d : db) : db :=
  mkDb (messages d)
       (update_first (fun x => bool_decide (Conversation._id x = id))
          assigned (conversations d))
       (oids d).

(** [router.post('/')] *)
Definition post_message (now : Z) (rq : PostMessage) (d : db)
  : db * response :=
  let content := default [] (pm_content rq) in
  let attachments := default [] (pm_attachments rq) in
  let errors :=
    match truthy (pm_sender rq) with
    | Some _ => []
    | None => ["sender is required"]
    end
    ++ match truthy (pm_receiver rq) with
       | Some _ => []
       | None => ["receiver is required"]
       end
    ++ (if is_empty (trim content) && (length attachments =? 0)%nat
        then ["Either content or attachments is required"] else []) in
  match errors, truthy (pm_sender rq), truthy (pm_receiver rq) with
  | [], Some sender, Some receiver =>
      if is_empty (trim content) && (length attachments =? 0)%nat
      then (d, Respond 400
                 (BMessage "Please provide sender, receiver and either content or attachments"))
      else
        match Message_save now
                (mkFields None sender (Str receiver) (trim content)
                   attachments) d
        with
        | Throw e => (d, Respond 400 (BThrown e))
        | Ok (savedMessage, d1) =>
            let participants := canonical <$> sort2 sender receiver in
            let assign :=
              set_meta now (preview_of content attachments)
                (canonical sender) (Message.timestamp savedMessage) in
            (match find (match_pair participants) (conversations d1) with
             | Some convo => Conversation_save (Conversation._id convo) assign d1
             | None =>
                 insert_conversation
                   (assign (new_Conversation now participants d1)) d1
             end,
             Respond 201 (BSaved savedMessage))
        end
  | [], _, _ =>
      (d, Respond 400
            (BMessage "Please provide sender, receiver and either content or attachments"))
  | _, _, _ => (d, Respond 400 (BErrors errors))
  end.

(** [result.modifiedCount] of an [updateMany]: the matched documents
    that the update changes. *)
Definition modifiedCount (filter : Message.t -> bool)
    (update : Message.t -> Message.t) (d : db) : nat :=
  length (base.filter
            (fun m => filter m = true ∧ update m ≠ m) (messages d)).

(** [router.put('/mark-read')] *)
Definition put_mark_read (now : Z) (messageIds : option (list string))
    (d : db) : db * response :=
  match messageIds with
  | None | Some [] =>
      (d, Respond 400 (BMessage "Please provide an array of message IDs"))
  | Some ids =>
      match cast_ids ids with
      | Ok ids =>
          (Message_updateMany (id_in ids) (set_read now) d,
           Respond 200 (BMarked (modifiedCount (id_in ids) (set_read now) d)))
      | Throw e => (d, Respond 500 (BThrown e))
      end
  end.

(** The filter of the history route's [updateMany]:
    [{ conversation, sender: { $ne: userId }, read: false }]. *)
Definition unread_from_other (cid userId : string) (m : Message.t) : bool :=
  bool_decide (Message.conversation m = Some cid)
  && negb (bool_decide (Message.sender m = userId))
  && negb (Message.read m).

(** [router.get('/conversations/:conversationId/messages')] for the
    authenticated user [userId]; every filter casts the two strings. *)
Definition get_messages (userId : string) (now : Z) (conversationId : string)
    (d : db) : db * response :=
  match cid ← cast_oid "_id" conversationId;
        uid ← cast_oid "participants" userId;
        Ok (find (fun c => bool_decide (Conversation._id c = cid)
                           && bool_decide (uid ∈ Conversation.participants c))
                 (conversations d)) with
  | Throw e => (d, Respond 500 (BFailure "Failed to fetch messages" e))
  | Ok None =>
      (d, Respond 404
            (BMessage "Conversation not found or you are not a participant"))
  | Ok (Some _) =>
      let cid := canonical conversationId in
      let uid := canonical userId in
      let history :=
        sort_by_createdAt
          (filter (fun m => Message.conversation m = Some cid)
                  (messages d)) in
      let d1 := Message_updateMany (unread_from_other cid uid)
                  (set_read_at now) d in
      let d2 :=
        mkDb (messages d1)
          (update_first (fun c => bool_decide (Conversation._id c = cid))
             (reset_unread now) (conversations d1))
          (oids d1) in
      (d2, Respond 200 (BData history))
  end.

End Routes.

(* ===================================================================== *)
(** * Handlers as sequences of store operations *)
(* ===================================================================== *)

(** No handler holds a lock: a handler suspends at every [await] of a
    store call and other handlers run in between.  A handler's dealings
    with the store are therefore a program whose every node is one store
    operation; the store serialises single operations and nothing else.
    [Fresh] is the driver drawing a new identifier. *)
Inductive prog :=
| Done
| Fresh (k : string -> prog)
| FindPair (ps : list string) (k : option Conversation.t -> prog)
| InsertConversation (c : Conversation.t) (k : prog)
| UpdateConversation (id : string)
    (assigned : Conversation.t -> Conversation.t) (k : prog)
| Upsert (now : Z) (ps : list string) (preview : js_string) (from : string)
    (on_insert : list string) (k : Conversation.t -> prog)
| InsertMessage (m : Message.t) (k : prog).

Section Programs.
Context `{ObjectIdLib}.

(** One store operation of a program. *)
Definition step (p : prog) (d : db) : prog * db :=
  match p with
  | Done => (Done, d)
  | Fresh k =>
      (k (new_oid (oids d)), mkDb (messages d) (conversations d) (S (oids d)))
  | FindPair ps k => (k (find (match_pair ps) (conversations d)), d)
  | InsertConversation c k =>
      (k, mkDb (messages d) (conversations d ++ [c]) (oids d))
  | UpdateConversation id assigned k => (k, Conversation_save id assigned d)
  | Upsert now ps preview from on_insert k =>
      let '(c, d') := Conversation_upsert now ps preview from on_insert d in
      (k c, d')
  | InsertMessage m k =>
      (k, mkDb (messages d ++ [m]) (conversations d) (oids d))
  end.

(** A handler running with nothing in between its operations. *)
Fixpoint run_alone (p : prog) (d : db) : db :=
  match p with
  | Done => d
  | Fresh k =>
      run_alone (k (new_oid (oids d)))
        (mkDb (messages d) (conversations d) (S (oids d)))
  | FindPair ps k => run_alone (k (find (match_pair ps) (conversations d))) d
  | InsertConversation c k =>
      run_alone k (mkDb (messages d) (conversations d ++ [c]) (oids d))
  | UpdateConversation id assigned k =>
      run_alone k (Conversation_save id assigned d)
  | Upsert now ps preview from on_insert k =>
      run_alone (k (Conversation_upsert now ps preview from on_insert d).1)
                (Conversation_upsert now ps preview from on_insert d).2
  | InsertMessage m k =>
      run_alone k (mkDb (messages d ++ [m]) (conversations d) (oids d))
  end.

(** Several handlers in flight: the scheduler picks whose operation the
    store serves next. *)
Fixpoint step_at (i : nat) (pool : list prog) (d : db) {struct pool}
  : list prog * db :=
  match pool, i with
  | [], _ => ([], d)
  | p :: pool', O => let '(p', d') := step p d in (p' :: pool', d')
  | p :: pool', S i' =>
      let '(pool'', d') := step_at i' pool' d in (p :: pool'', d')
  end.

Fixpoint run_schedule (sched : list nat) (pool : list prog) (d : db)
  : list prog * db :=
  match sched with
  | [] => (pool, d)
  | i :: sched' =>
      let '(pool', d') := step_at i pool d in run_schedule sched' pool' d'
  end.

Definition finished (p : prog) : bool :=
  match p with Done => true | _ => false end.

(** The store operations of the pre-save hook of a message [m]. *)
Definition pre_save_prog (now : Z) (m : Message.t) (k : Message.t -> prog)
  : prog :=
  match Message.conversation m with
  | Some _ => k m
  | None =>
      let participants := [Message.sender m; Message.receiver m] in
      let with_conversation (cid : string) :=
        Message.mk (Message._id m) (Some cid) (Message.sender m)
          (Message.receiver m) (Message.content m) (Message.timestamp m)
          (Message.createdAt m) (Message.updatedAt m) (Message.read m)
          (Message.readAt m) (Message.attachments m) in
      FindPair participants (fun found =>
        match found with
        | Some c => k (with_conversation (Conversation._id c))
        | None =>
            Fresh (fun id =>
              let c := Conversation.mk id participants None None None None
                         now 0 now now in
              InsertConversation c (k (with_conversation id)))
        end)
  end.

(** The store operations of [new Message(f).save()]; a message that
    fails validation reaches the store with nothing. *)
Definition Message_save_prog (now : Z) (f : MessageFields)
    (k : Message.t -> prog) : prog :=
  match validate_message f with
  | Throw _ => Done
  | Ok _ =>
      Fresh (fun id =>
        let m := Message.mk id (canonical <$> f_conversation f)
                   (canonical (f_sender f)) (stored_id (f_receiver f))
                   (f_content f) now now now false None (f_attachments f) in
        pre_save_prog now m (fun m' => InsertMessage m' (k m')))
  end.

(** The store operations of a valid [sendMessage] event. *)
Definition sendMessage_prog (userId : string) (now : Z) (receiver : string)
    (content : js_string) (attachments : list string) : prog :=
  let senderObjectId :=
    if isValid userId then canonical userId else userId in
  let receiverObjectId :=
    if isValid receiver then canonical receiver else receiver in
  Message_save_prog now
    (mkFields None userId (Str receiver) content attachments)
    (fun _ =>
       Upsert now (sort2 senderObjectId receiverObjectId)
         (preview_of content attachments) senderObjectId
         [senderObjectId; receiverObjectId] (fun _ => Done)).

(** The store operations of a valid [POST /] request. *)
Definition post_message_prog (now : Z) (sender receiver : string)
    (content : js_string) (attachments : list string) : prog :=
  Message_save_prog now
    (mkFields None sender (Str receiver) (trim content) attachments)
    (fun savedMessage =>
       let participants := canonical <$> sort2 sender receiver in
       FindPair participants (fun found =>
         match found with
         | Some c =>
             UpdateConversation (Conversation._id c)
               (set_meta now (preview_of content attachments)
                  (canonical sender) (Message.timestamp savedMessage)) Done
         | None =>
             Fresh (fun id =>
               InsertConversation
                 (set_meta now (preview_of content attachments)
                    (canonical sender) (Message.timestamp savedMessage)
                    (Conversation.mk id participants None None None None
                       now 0 now now)) Done)
         end)).

(** The number of conversation documents that match a pair. *)
Definition count_pair (ps : list string) (d : db) : nat :=
  length (filter (fun c => match_pair ps c = true) (conversations d)).

End Programs.

(* ===================================================================== *)
(** * The client socket manager: [utils/socket.ts] *)
(* ===================================================================== *)

Module Client.

(** The module's top-level variables are the fields of [manager]; every
    exported function and every closure is a function on them.  A
    closure that awaits the fallback probe continues in the same step,
    with the outcome of each probe given by an oracle [reach].  The
    promise that [getSocket] returns and the [onAny] logger do not touch
    the variables and are left out. *)

Definition MAX_RECONNECT_ATTEMPTS : nat := 5.
Definition RECONNECT_INTERVAL : Z := 1000.

Inductive SocketConnectionStatus :=
| CONNECTED
| DISCONNECTED
| CONNECTING
| ERROR.

(** An entry of [socketEventListeners].  A callback is a function
    object, compared by identity: it is named by a number here. *)
Record SocketEventListener := mkListener {
  l_event : string;
  l_callback : nat;
  l_id : string
}.

(** What is attached to a socket under an event name: one of the
    manager's own closures of [initializeSocket] (the one of that event
    name), an application callback, or a [once] closure of [getSocket]
    that settles its promise. *)
Inductive handler :=
| Internal
| Callback (cb : nat)
| Once.

#[global] Instance handler_eq_dec : EqDecision handler.
Proof. solve_decision. Defined.

(** The transport object: where it points, whether its handshake is
    done, and its listeners in the order they were attached. *)
Record Socket := mkSocket {
  url : string;
  connected : bool;
  listeners : list (string * handler)
}.

(** A [setTimeout] handle: it stays in the variable after it fired. *)
Record Timeout := mkTimeout {
  delay : Z;
  pending : bool
}.

(** The module's variables, and the stored token it reads. *)
Record manager := mkManager {
  SOCKET_BASE_URL : string;
  socket : option Socket;
  reconnectAttempts : nat;
  reconnectTimer : option Timeout;
  connectionStatus : SocketConnectionStatus;
  socketEventListeners : list SocketEventListener;
  token : option string
}.

(** The build-time address of the development machine. *)
Class Expo := { DEV_IP : string }.

(** [socket.on(event, h)] *)
Definition on (ev : string) (h : handler) (sk : Socket) : Socket :=
  mkSocket (url sk) (connected sk) (listeners sk ++ [(ev, h)]).

(** [socket.off(event)]: every listener of the event goes. *)
Definition off (ev : string) (sk : Socket) : Socket :=
  mkSocket (url sk) (connected sk)
    (filter (fun eh => eh.1 ≠ ev) (listeners sk)).

Fixpoint remove_first {A} `{EqDecision A} (x : A) (l : list A) : list A :=
  match l with
  | [] => []
  | y :: l' => if decide (y = x) then l' else y :: remove_first x l'
  end.

(** [socket.off(event, callback)]: the first listener that is this
    callback goes. *)
Definition off_callback (ev : string) (cb : nat) (sk : Socket) : Socket :=
  mkSocket (url sk) (connected sk)
    (remove_first (ev, Callback cb) (listeners sk)).

(** The listeners of one event, in order. *)
Definition attached (ev : string) (sk : Socket) : list handler :=
  (filter (fun eh => eh.1 = ev) (listeners sk)).*2.

(** The callbacks the registry holds for one event, in order. *)
Definition registered (ev : string) (ls : list SocketEventListener)
  : list handler :=
  (fun l => Callback (l_callback l)) <$> filter (fun l => l_event l = ev) ls.

Definition set_socket (o : option Socket) (m : manager) : manager :=
  mkManager (SOCKET_BASE_URL m) o (reconnectAttempts m) (reconnectTimer m)
    (connectionStatus m) (socketEventListeners m) (token m).

Definition set_status (st : SocketConnectionStatus) (m : manager) : manager :=
  mkManager (SOCKET_BASE_URL m) (socket m) (reconnectAttempts m)
    (reconnectTimer m) st (socketEventListeners m) (token m).

Definition set_attempts (n : nat) (m : manager) : manager :=
  mkManager (SOCKET_BASE_URL m) (socket m) n (reconnectTimer m)
    (connectionStatus m) (socketEventListeners m) (token m).

Definition set_timer (t : option Timeout) (m : manager) : manager :=
  mkManager (SOCKET_BASE_URL m) (socket m) (reconnectAttempts m) t
    (connectionStatus m) (socketEventListeners m) (token m).

Definition set_url (u : string) (m : manager) : manager :=
  mkManager u (socket m) (reconnectAttempts m) (reconnectTimer m)
    (connectionStatus m) (socketEventListeners m) (token m).

Definition set_registry (ls : list SocketEventListener) (m : manager)
  : manager :=
  mkManager (SOCKET_BASE_URL m) (socket m) (reconnectAttempts m)
    (reconnectTimer m) (connectionStatus m) ls (token m).

(** [cleanupSocket]: listeners removed, socket dropped, timer cleared. *)
Definition cleanupSocket (m : manager) : manager :=
  set_status DISCONNECTED (set_timer None (set_socket None m)).

(** [reapplyEventListeners]: first [off] per stored listener, then [on]
    per stored listener. *)
Definition reapplyEventListeners (m : manager) : manager :=
  match socket m with
  | None => m
  | Some sk =>
      let sk1 := foldl (fun s l => off (l_event l) s) sk
                   (socketEventListeners m) in
      let sk2 := foldl (fun s l => on (l_event l) (Callback (l_callback l)) s)
                   sk1 (socketEventListeners m) in
      set_socket (Some sk2) m
  end.

(** The ['connect'] closure of [initializeSocket]. *)
Definition on_connect (m : manager) : manager :=
  reapplyEventListeners
    (set_timer None (set_attempts 0 (set_status CONNECTED m))).

(** The state after the connect closure has run on a live socket: the
    counter and the timer are reset, and under the event of every stored
    listener the socket carries the stored callbacks of that event. *)
Definition reapplied (R : list SocketEventListener) (m : manager) : Prop :=
  reconnectAttempts m = 0 ∧ reconnectTimer m = None
  ∧ connectionStatus m = CONNECTED ∧ socketEventListeners m = R
  ∧ ∃ sk, socket m = Some sk ∧ connected sk = true
          ∧ ∀ l, l ∈ R → attached (l_event l) sk = registered (l_event l) R.

Section Manager.
Context `{Expo}.

Definition FALLBACK_URLS : list string :=
  ["https://peteat-backend.onrender.com";
   "http://" +:+ DEV_IP +:+ ":5000";
   "http://10.0.2.2:5000";
   "http://localhost:5000"].

(** [tryFallbackUrls]: the first candidate other than the current URL
    whose probe connects becomes the URL.  [reach] tells which probes
    connect within their three seconds. *)
Definition tryFallbackUrls (reach : string -> bool) (m : manager)
  : bool * manager :=
  match find (fun u => negb (bool_decide (u = SOCKET_BASE_URL m)) && reach u)
             FALLBACK_URLS with
  | Some u => (true, set_url u m)
  | None => (false, m)
  end.

(** [initializeSocket]: without a token the status is [ERROR] and no
    socket is made; otherwise the old socket is cleaned up and a new one
    starts connecting with the manager's three closures attached. *)
Definition initializeSocket (m : manager) : manager :=
  match token m with
  | None => set_status ERROR m
  | Some _ =>
      let m1 := match socket m with
                | Some _ => cleanupSocket m
                | None => m
                end in
      let m2 := set_status CONNECTING m1 in
      set_socket
        (Some (mkSocket (SOCKET_BASE_URL m2) false
                 [("connect", Internal); ("disconnect", Internal);
                  ("connect_error", Internal)]))
        m2
  end.

(** [attemptReconnect].  At the cap the fallback probe runs again and
    its outcome decides; below it the counter grows and the timer is
    set to the doubled delay. *)
Definition attemptReconnect (reach : string -> bool) (m : manager) : manager :=
  if (MAX_RECONNECT_ATTEMPTS <=? reconnectAttempts m)%nat then
    match tryFallbackUrls reach m with
    | (true, m1) => initializeSocket (set_attempts 0 m1)
    | (false, m1) => cleanupSocket (set_status ERROR m1)
    end
  else
    let m1 := set_attempts (S (reconnectAttempts m)) m in
    let delay :=
      (RECONNECT_INTERVAL * 2 ^ (Z.of_nat (reconnectAttempts m1) - 1))%Z in
    set_timer (Some (mkTimeout delay true)) m1.

(** The callback of the reconnect timer. *)
Definition timer_fired (m : manager) : manager :=
  match connectionStatus m with
  | DISCONNECTED | ERROR => initializeSocket m
  | _ => m
  end.

(** The ['disconnect'] closure. *)
Definition on_disconnect (reason : string) (reach : string -> bool)
    (m : manager) : manager :=
  let m1 := set_status DISCONNECTED m in
  if bool_decide (reason = "io server disconnect")
     || bool_decide (reason = "transport close")
  then attemptReconnect reach m1 else m1.

(** The ['connect_error'] closure; [reach'] is the outcome of the probes
    that [attemptReconnect] runs at the cap. *)
Definition on_connect_error (reach reach' : string -> bool) (m : manager)
  : manager :=
  match tryFallbackUrls reach (set_status ERROR m) with
  | (true, m1) => initializeSocket m1
  | (false, m1) => attemptReconnect reach' m1
  end.

(** [addSocketListener] with the generated identifier [id]. *)
Definition addSocketListener (ev : string) (cb : nat) (id : string)
    (m : manager) : manager :=
  let m1 := set_registry (socketEventListeners m ++ [mkListener ev cb id]) m in
  match socket m1 with
  | Some sk => set_socket (Some (on ev (Callback cb) sk)) m1
  | None => m1
  end.

Fixpoint splice_first {A} (p : A -> bool) (l : list A) : list A :=
  match l with
  | [] => []
  | x :: l' => if p x then l' else x :: splice_first p l'
  end.

(** [removeSocketListenerById] *)
Definition removeSocketListenerById (id : string) (m : manager)
  : bool * manager :=
  match find (fun l => bool_decide (l_id l = id)) (socketEventListeners m) with
  | Some l =>
      let m1 := set_registry
                  (splice_first (fun l => bool_decide (l_id l = id))
                     (socketEventListeners m)) m in
      (true,
       match socket m1 with
       | Some sk =>
           set_socket (Some (off_callback (l_event l) (l_callback l) sk)) m1
       | None => m1
       end)
  | None => (false, m)
  end.

(** [removeSocketListener(event, callback?)]: nothing happens without a
    socket. *)
Definition removeSocketListener (ev : string) (callback : option nat)
    (m : manager) : manager :=
  match socket m with
  | Some sk =>
      if bool_decide (ev = "") then m
      else match callback with
           | Some cb =>
               set_registry
                 (splice_first
                    (fun l => bool_decide (l_event l = ev)
                              && bool_decide (l_callback l = cb))
                    (socketEventListeners m))
                 (set_socket (Some (off_callback ev cb sk)) m)
           | None =>
               set_registry
                 (filter (fun l => l_event l ≠ ev) (socketEventListeners m))
                 (set_socket (Some (off ev sk)) m)
           end
  | None => m
  end.

(** [disconnectSocket] *)
Definition disconnectSocket (m : manager) : manager := cleanupSocket m.

(** [getSocket], as far as the module's variables go: a connected
    socket is returned as it is; a socket that is not connected is told
    to connect, with two [once] closures waiting for the outcome; with
    no socket, [initializeSocket] runs. *)
Definition getSocket (m : manager) : manager :=
  match socket m with
  | Some sk =>
      if connected sk then m
      else set_socket (Some (on "connect_error" Once (on "connect" Once sk)))
             (set_status CONNECTING m)
  | None => initializeSocket m
  end.

(** What the transport reports on the current socket, and the timer. *)
Inductive signal :=
| Connect
| ConnectError (reach reach' : string -> bool)
| Disconnect (reason : string) (reach : string -> bool)
| TimerFired.

Definition signal_name (e : signal) : string :=
  match e with
  | Connect => "connect"
  | ConnectError _ _ => "connect_error"
  | Disconnect _ _ => "disconnect"
  | TimerFired => ""
  end.

(** One attached listener reacting to a signal: the manager's closure of
    that event, or an application callback (which leaves the manager's
    variables alone). *)
Definition run_handler (e : signal) (h : handler) (m : manager) : manager :=
  match h, e with
  | Internal, Connect => on_connect m
  | Internal, ConnectError reach reach' => on_connect_error reach reach' m
  | Internal, Disconnect reason reach => on_disconnect reason reach m
  | _, _ => m
  end.

(** A [once] closure detaches itself from its socket when it fires. *)
Definition fire_once (ev : string) (sk : Socket) : Socket :=
  mkSocket (url sk) (connected sk)
    (filter (fun eh => eh ≠ (ev, Once)) (listeners sk)).

(** The socket emits the event to the listeners attached when it fires;
    the [once] closures among them are detached. *)
Definition dispatch (e : signal) (m : manager) : manager :=
  match socket m with
  | Some sk =>
      foldl (fun m h => run_handler e h m)
        (set_socket (Some (fire_once (signal_name e) sk)) m)
        (attached (signal_name e) sk)
  | None => m
  end.

Definition set_connected (b : bool) (m : manager) : manager :=
  match socket m with
  | Some sk => set_socket (Some (mkSocket (url sk) b (listeners sk))) m
  | None => m
  end.

(** What can happen without the application calling the manager: the
    handshake of a socket that is not connected succeeds or fails, a
    connected socket disconnects, a pending timer fires.  [None]: the
    signal cannot occur in this state. *)
Definition react (e : signal) (m : manager) : option manager :=
  match e with
  | Connect =>
      match socket m with
      | Some sk =>
          if connected sk then None
          else Some (dispatch e (set_connected true m))
      | None => None
      end
  | ConnectError _ _ =>
      match socket m with
      | Some sk => if connected sk then None else Some (dispatch e m)
      | None => None
      end
  | Disconnect _ _ =>
      match socket m with
      | Some sk =>
          if connected sk then Some (dispatch e (set_connected false m))
          else None
      | None => None
      end
  | TimerFired =>
      match reconnectTimer m with
      | Some t =>
          if pending t
          then Some (timer_fired
                       (set_timer (Some (mkTimeout (delay t) false)) m))
          else None
      | None => None
      end
  end.

(** A history of signals from a state. *)
Fixpoint react_all (es : list signal) (m : manager) : option manager :=
  match es with
  | [] => Some m
  | e :: es' =>
      match react e m with
      | Some m' => react_all es' m'
      | None => None
      end
  end.

(** The state when the module is loaded. *)
Definition initial (base : string) (tok : option string) : manager :=
  mkManager base None 0 None DISCONNECTED [] tok.

(** What drives the manager: the application calling an exported
    function, or the transport and the timer. *)
Inductive call :=
| Initialize
| AddListener (ev : string) (cb : nat) (id : string)
| RemoveById (id : string)
| RemoveListener (ev : string) (callback : option nat)
| DisconnectSocket
| GetSocket
| Transport (e : signal).

Definition perform (c : call) (m : manager) : option manager :=
  match c with
  | Initialize => Some (initializeSocket m)
  | AddListener ev cb id => Some (addSocketListener ev cb id m)
  | RemoveById id => Some (removeSocketListenerById id m).2
  | RemoveListener ev callback => Some (removeSocketListener ev callback m)
  | DisconnectSocket => Some (disconnectSocket m)
  | GetSocket => Some (getSocket m)
  | Transport e => react e m
  end.

Fixpoint perform_all (cs : list call) (m : manager) : option manager :=
  match cs with
  | [] => Some m
  | c :: cs' =>
      match perform c m with
      | Some m' => perform_all cs' m'
      | None => None
      end
  end.

(** The three events the manager itself listens to. *)
Definition lifecycle_event (ev : string) : bool :=
  bool_decide (ev ∈ ["connect"; "disconnect"; "connect_error"]).

(** The application adds and removes listeners of its own events only. *)
Definition application_call (c : call) : Prop :=
  match c with
  | AddListener ev _ _ | RemoveListener ev _ => lifecycle_event ev = false
  | _ => True
  end.

(** The socket, if there is one, carries the manager's three closures,
    and the registry holds application events only. *)
Definition wired (m : manager) : Prop :=
  (∀ l, l ∈ socketEventListeners m → lifecycle_event (l_event l) = false)
  ∧ ∀ sk, socket m = Some sk →
          ∀ ev, lifecycle_event ev = true → (ev, Internal) ∈ listeners sk.

End Manager.

End Client.

(* ===================================================================== *)
(** * The conditions of the specification, and a concrete identifier library *)
(* ===================================================================== *)

Section Conditions.
Context `{ObjectIdLib}.

(** The receiver of a direct send is missing (absent or empty) or is
    not a well-formed identifier. *)
Definition receiver_missing_or_malformed (ev : SendMessage) : bool :=
  match sm_receiver ev with
  | None => true
  | Some r => bool_decide (r = "") || negb (isValid r)
  end.

(** The trimmed content is empty and there is no attachment. *)
Definition nothing_to_send (ev : SendMessage) : bool :=
  is_empty (trim (default [] (sm_content ev)))
  && bool_decide (default [] (sm_attachments ev) = []).

(** No conversation of the store has the identifier that the
    [conversationId] of the event denotes, in whatever spelling; a
    malformed [conversationId] denotes none. *)
Definition names_no_conversation (ev : NewMessage) (d : db) : Prop :=
  ∀ cid c, nm_conversationId ev = Some cid → isValid cid = true →
           c ∈ conversations d → Conversation._id c ≠ canonical cid.

(** The [conversationId] of a conversation-dialect send is missing
    (absent or empty) or its text is missing or blank. *)
Definition nothing_to_file (ev : NewMessage) : bool :=
  match truthy (nm_conversationId ev), nm_text ev with
  | Some _, Some text => is_empty (trim text)
  | _, _ => true
  end.

End Conditions.

(** Identifiers of twenty-four hexadecimal digits, generated in
    sequence: the instance the concrete runs below are evaluated at. *)
Definition is_hex (a : Ascii.ascii) : bool :=
  let n := Ascii.nat_of_ascii a in
  ((48 <=? n) && (n <=? 57) || (97 <=? n) && (n <=? 102)
   || (65 <=? n) && (n <=? 70))%nat.

Definition hex24 (s : string) : bool :=
  (String.length s =? 24)%nat && forallb is_hex (String.list_ascii_of_string s).

Definition oid_of_nat (n : nat) : string :=
  let s := pretty n in
  String.string_of_list_ascii
    (replicate (24 - String.length s) (Ascii.ascii_of_nat 48)) +:+ s.

(** The string of an identifier spells its digits in lower case. *)
Definition lower_hex (a : Ascii.ascii) : Ascii.ascii :=
  let n := Ascii.nat_of_ascii a in
  if ((65 <=? n) && (n <=? 70))%nat then Ascii.ascii_of_nat (n + 32) else a.

Definition lower_oid (s : string) : string :=
  String.string_of_list_ascii (lower_hex <$> String.list_ascii_of_string s).

Definition hex_oids : ObjectIdLib :=
  {| isValid := hex24; canonical := lower_oid; new_oid := oid_of_nat |}.

Definition alice : string := "aaaaaaaaaaaaaaaaaaaaaaaa".
Definition bob : string := "bbbbbbbbbbbbbbbbbbbbbbbb".

(** A relay with an empty store and nobody online. *)
Definition server0 : server := mkServer empty_db ∅ [].

(** A first message from bob to alice, then [PUT /mark-read] on it,
    then alice fetching the history of the conversation. *)
Definition hello_from_bob : SendMessage :=
  mkSend (Some alice) (Some (lit "hello")) None.

Definition store_after_hello : db :=
  store (@sendMessage hex_oids bob 100 hello_from_bob server0).1.

Definition store_after_mark_read : db :=
  (@put_mark_read hex_oids 200 (Some [oid_of_nat 0]) store_after_hello).1.

Definition store_after_fetch : db :=
  (@get_messages hex_oids alice 300 (oid_of_nat 1) store_after_mark_read).1.

(** Two first messages from alice to bob in flight at once, over [POST /]
    and over [sendMessage], and a schedule in which both pre-save hooks
    look for the conversation before either has inserted it. *)
Definition two_posts : list prog :=
  [@post_message_prog hex_oids 100 alice bob (lit "hi") [];
   @post_message_prog hex_oids 101 alice bob (lit "hey") []].

Definition two_sends : list prog :=
  [@sendMessage_prog hex_oids alice 100 bob (lit "hi") [];
   @sendMessage_prog hex_oids alice 101 bob (lit "hey") []].

Definition one_after_the_other : list nat :=
  replicate 7 0 ++ replicate 7 1.

Definition both_find_first : list nat :=
  [0; 0; 1; 1; 0; 0; 0; 0; 0; 1; 1; 1; 1; 1].

(** The handlers of [pool] started on the empty store and scheduled
    by [sched]. *)
Definition run_race (sched : list nat) (pool : list prog) : list prog * db :=
  @run_schedule hex_oids sched pool empty_db.

(** A program that is a single upsert for the pair [ps], or is over. *)
Definition upsert_only (ps : list string) (p : prog) : Prop :=
  match p with
  | Done => True
  | Upsert _ ps' _ _ on_insert k =>
      ps' = ps ∧ length on_insert = 2 ∧ (∀ x, x ∈ ps → x ∈ on_insert)
      ∧ ∀ c, k c = Done
  | _ => False
  end.

(** The client on a development machine, holding a token, with one
    listener added before the first socket exists and one after; and a
    network on which no endpoint ever answers. *)
Definition dev_expo : Client.Expo := {| Client.DEV_IP := "192.168.1.15" |}.

Definition unreachable : string -> bool := fun _ => false.

Definition started : Client.manager :=
  Client.initializeSocket
    (Client.initial "http://localhost:5000" (Some "token")).

Definition two_listeners : Client.manager :=
  Client.addSocketListener "receiveMessage" 2 "id2"
    (Client.initializeSocket
       (Client.addSocketListener "newMessage" 1 "id1"
          (Client.initial "http://localhost:5000" (Some "token")))).

(** Every handshake fails and every probe fails: five rounds of error
    and timer, then one more error. *)
Definition all_attempts_fail : list Client.signal :=
  concat (replicate 5 [Client.ConnectError unreachable unreachable;
                       Client.TimerFired])
  ++ [Client.ConnectError unreachable unreachable].

(** The message and the conversation that bob's first message leaves
    in the store. *)
Definition hello_message : Message.t :=
  Message.mk (oid_of_nat 0) (Some (oid_of_nat 1)) bob alice (lit "hello")
    100 100 100 false None [].

Definition hello_conversation : Conversation.t :=
  Conversation.mk (oid_of_nat 1) [bob; alice] (Some (lit "hello")) None
    (Some (lit "hello")) (Some bob) 100 0 100 100.

Definition server_after_hello : server := mkServer store_after_hello ∅ [].

(** A direct send with an attachment and no content; a direct send with
    text; a conversation-dialect reply; a conversation-dialect send to
    an identifier that names nothing. *)
Definition attachment_only : SendMessage :=
  mkSend (Some bob) None (Some ["file:///photo.jpg"]).

Definition text_to_bob : SendMessage :=
  mkSend (Some bob) (Some (lit "again")) None.

Definition reply_in_conversation : NewMessage :=
  mkNew (Some (oid_of_nat 1)) (Some (lit "hi back")).

Definition send_to_nowhere : NewMessage :=
  mkNew (Some (oid_of_nat 7)) (Some (lit "anyone?")).

(** A conversation-dialect send whose [conversationId] is no
    identifier at all. *)
Definition send_to_malformed : NewMessage :=
  mkNew (Some "not-an-id") (Some (lit "anyone?")).

(** Bob's identifier spelled in upper case, and a store whose one
    conversation has letters in its identifier. *)
Definition BOB : string := "BBBBBBBBBBBBBBBBBBBBBBBB".

Definition lettered_conversation : Conversation.t :=
  Conversation.mk "abcdefabcdefabcdefabcdef" [alice; bob] None None None None
    50 0 50 50.

Definition lettered_server : server :=
  mkServer (mkDb [] [lettered_conversation] 1) ∅ [].

Definition upper_case_reply : NewMessage :=
  mkNew (Some "ABCDEFABCDEFABCDEFABCDEF") (Some (lit "hi")).

Definition text_to_BOB : SendMessage :=
  mkSend (Some BOB) (Some (lit "again")) None.

(** A third user, who takes part in no conversation; a note that alice
    sends to herself; the relay after that note on an empty store, whose
    one conversation has alice as both participants. *)
Definition carol : string := "cccccccccccccccccccccccc".

Definition note_to_self : SendMessage :=
  mkSend (Some alice) (Some (lit "note")) None.

Definition solo_server : server :=
  mkServer (store (@sendMessage hex_oids alice 100 note_to_self server0).1)
    ∅ [].

(** Bob connected on one socket. *)
Definition bob_online : server := connection "socket-b" bob server0.

(** The calls that lead to [two_listeners]; and an application that
    listens to the connect event through the manager. *)
Definition listener_calls : list Client.call :=
  [Client.AddListener "newMessage" 1 "id1"; Client.Initialize;
   Client.AddListener "receiveMessage" 2 "id2"].

Definition connect_listener_calls : list Client.call :=
  [Client.Initialize; Client.AddListener "connect" 9 "id9";
   Client.Transport Client.Connect].

(** The same application, whose connection then closes and comes
    back: the transport reports a close and, later, the success of the
    handshake of the same socket. *)
Definition connect_listener_reconnects : list Client.call :=
  connect_listener_calls
  ++ [Client.Transport (Client.Disconnect "transport close" unreachable);
      Client.Transport Client.Connect].

(* ===================================================================== *)
(** * The connection gate and the remaining message routes *)
(* ===================================================================== *)

(** What a client presents at the handshake: [handshake.auth.token] and
    [handshake.query.token]. *)
Record Handshake := mkHandshake {
  auth_token : option string;
  query_token : option string
}.

(** The decoded token, [{ id, role, ... }]. *)
Record Decoded := mkDecoded {
  d_id : string;
  d_role : string
}.

(** [jwt.verify(token, process.env.JWT_SECRET)] is not part of the
    repository: it returns the decoded token or throws with a message. *)
Class TokenVerifier := { jwt_verify : string -> Decoded + string }.

Inductive admission :=
| Accepted (user : Decoded)
| Rejected (message : string).

(** The replies of the routes below: [res.status(s).json(...)]. *)
Inductive reply_body :=
| RCount (count : nat)
| RText (message : string)
| RThrown (e : exn)
| RFailed (message : string) (e : exn)
| RConversation (c : Conversation.t)
| RMessage (m : Message.t).

Record reply := Reply {
  r_status : nat;
  r_body : reply_body
}.

(** The body of [POST /conversations] with the authenticated user. *)
Record StartConversation := mkStart {
  sc_userId : string;
  sc_userType : string;
  sc_clinicId : option string;
  sc_ownerId : option string
}.

(** Drop the first element that satisfies [p]: a delete of one
    document by a filter. *)
Fixpoint delete_first {A} (p : A -> bool) (l : list A) : list A :=
  match l with
  | [] => []
  | x :: l' => if p x then l' else x :: delete_first p l'
  end.

(** The update of [POST /conversations/:conversationId/messages]. *)
Definition set_last_http (now : Z) (mid : string) (text : js_string)
    (from : string) (c : Conversation.t) : Conversation.t :=
  Conversation.mk (Conversation._id c) (Conversation.participants c)
    (Conversation.lastMessage c) (Some mid) (Some text) (Some from) now
    (Conversation.unreadCount c + 1) (Conversation.createdAt c) now.

Section Gate.
Context `{TokenVerifier}.

(** The middleware of [io.use]: [auth.token || query.token], then the
    verification; an error passed to [next] refuses the connection. *)
Definition authenticate (h : Handshake) : admission :=
  let token := match truthy (auth_token h) with
               | Some t => Some t
               | None => query_token h
               end in
  match truthy token with
  | None => Rejected "Authentication error: No token provided"
  | Some token =>
      match jwt_verify token with
      | inl decoded => Accepted decoded
      | inr message => Rejected ("Authentication error: " +:+ message)
      end
  end.

(** A connection attempt with socket id [sid]: the connection handler
    runs only behind the gate, for the identity of the token. *)
Definition connect_attempt (sid : string) (h : Handshake) (s : server)
  : server * admission :=
  match authenticate h with
  | Accepted user => (connection sid (d_id user) s, Accepted user)
  | Rejected message => (s, Rejected message)
  end.

End Gate.

Section MoreRoutes.
Context `{ObjectIdLib}.

(** [router.get('/unread-count/:userId')] *)
Definition get_unread_count (userId : string) (d : db) : reply :=
  match cast_oid "receiver" userId with
  | Ok uid =>
      Reply 200
        (RCount (length (filter (fun m => Message.receiver m = uid
                                          ∧ Message.read m = false)
                           (messages d))))
  | Throw e => Reply 500 (RThrown e)
  end.

(** [router.delete('/:id')] *)
Definition delete_message (id : string) (d : db) : db * reply :=
  match cast_oid "_id" id with
  | Throw e => (d, Reply 500 (RThrown e))
  | Ok i =>
      match find (fun m => bool_decide (Message._id m = i)) (messages d) with
      | None => (d, Reply 404 (RText "Message not found"))
      | Some _ =>
          (mkDb (delete_first (fun m => bool_decide (Message._id m = i))
                   (messages d))
                (conversations d) (oids d),
           Reply 200 (RText "Message deleted successfully"))
      end
  end.

(** [router.post('/conversations')]: the conversation with the other
    user, found by [{ participants: { $all: [user, other] } }] or else
    created.  The reply carries the document with its participants as
    identifiers; the join with the user collection that the route does
    on a created document is outside this model. *)
Definition start_conversation (now : Z) (rq : StartConversation) (d : db)
  : db * reply :=
  let isPetOwner := bool_decide (sc_userType rq = "pet_owner") in
  let otherParticipantId := if isPetOwner then sc_clinicId rq
                            else sc_ownerId rq in
  let required := if isPetOwner then "Valid Clinic ID is required"
                  else "Valid Owner ID is required" in
  match truthy otherParticipantId with
  | None => (d, Reply 400 (RText required))
  | Some other =>
      if bool_decide (other = "undefined")
      then (d, Reply 400 (RText required))
      else if negb (isValid (sc_userId rq))
      then (d, Reply 400 (RText "Invalid user ID format"))
      else if negb (isValid other)
      then (d, Reply 400 (RText "Invalid user ID format"))
      else
        let userObjectId := canonical (sc_userId rq) in
        let otherUserObjectId := canonical other in
        match find (fun c => bool_decide (userObjectId
                                            ∈ Conversation.participants c)
                             && bool_decide (otherUserObjectId
                                               ∈ Conversation.participants c))
                   (conversations d) with
        | Some conversation => (d, Reply 200 (RConversation conversation))
        | None =>
            let conversation :=
              new_Conversation now [userObjectId; otherUserObjectId] d in
            (insert_conversation conversation d,
             Reply 200 (RConversation conversation))
        end
  end.

(** The [try] of [router.post('/conversations/:conversationId/messages')]
    after the text check. *)
Definition post_conversation_message_try (senderId : string) (now : Z)
    (conversationId : string) (text : js_string) (d : db)
  : result (db * reply) :=
  cid ← cast_oid "_id" conversationId;
  uid ← cast_oid "participants" senderId;
  match find (fun c => bool_decide (Conversation._id c = cid)
                       && bool_decide (uid ∈ Conversation.participants c))
             (conversations d) with
  | None =>
      Ok (d, Reply 404
               (RText "Conversation not found or you are not a participant"))
  | Some conversation =>
      recipient ←
        from_option Ok (Throw (ValidationError "receiver"))
          (find (fun p => negb (bool_decide (p = senderId)))
                (Conversation.participants conversation));
      '(message, d1) ←
         Message_save now
           (mkFields (Some conversationId) senderId (Oid recipient)
              (trim text) [])
           d;
      let d2 :=
        mkDb (messages d1)
          (update_first (fun c => bool_decide (Conversation._id c = cid))
             (set_last_http now (Message._id message) (trim text) uid)
             (conversations d1))
          (oids d1) in
      Ok (d2, Reply 200 (RMessage message))
  end.

(** [router.post('/conversations/:conversationId/messages')] for the
    authenticated user [senderId]. *)
Definition post_conversation_message (senderId : string) (now : Z)
    (conversationId : string) (text : option js_string) (d : db)
  : db * reply :=
  match text with
  | Some t =>
      if is_empty t || is_empty (trim t)
      then (d, Reply 400 (RText "Message text is required"))
      else match post_conversation_message_try senderId now conversationId
                   t d with
           | Ok r => r
           | Throw e => (d, Reply 500 (RFailed "Failed to send message" e))
           end
  | None => (d, Reply 400 (RText "Message text is required"))
  end.

End MoreRoutes.

(** The order of a history sorted by [{ createdAt: 1 }]. *)
Definition created_before (m1 m2 : Message.t) : Prop :=
  (Message.createdAt m1 ≤ Message.createdAt m2)%Z.

Section Filed.
Context `{ObjectIdLib}.

(** The document that both sends into a conversation save:
    [{ conversation, sender, receiver, content: text.trim() }] with the
    schema defaults and the next identifier of the store. *)
Definition filed (d : db) (now : Z) (cid userId recipient : string)
    (text : js_string) : Message.t :=
  Message.mk (new_oid (oids d)) (Some (canonical cid)) (canonical userId)
    recipient (trim text) now now now false None [].

(** The filter [{ _id: id }] on conversations and on messages. *)
Definition conversation_is (id : string) (c : Conversation.t) : bool :=
  bool_decide (Conversation._id c = id).

Definition message_is (id : string) (m : Message.t) : bool :=
  bool_decide (Message._id m = id).

(** [participants.find(p => p.toString() !== userId.toString())] *)
Definition other_participant (userId : string) (c : Conversation.t)
  : option string :=
  find (fun p => negb (bool_decide (p = userId)))
       (Conversation.participants c).

End Filed.

(* ===================================================================== *)
(** * The definitions on small inputs *)
(* ===================================================================== *)

Example trim_strips_both_ends : trim (lit "  hi there ") = lit "hi there".
Proof. reflexivity. Qed.

Example trim_blank : trim ([9; 32; 160; 8232; 65279]%N) = [].
Proof. reflexivity. Qed.

Example preview_of_text : preview_of (lit "hello") [] = lit "hello".
Proof. reflexivity. Qed.

Example preview_of_attachment :
  preview_of (lit " ") ["file:///photo.jpg"] = ATTACHMENT_PREVIEW.
Proof. reflexivity. Qed.

Example sort2_orders : sort2 bob alice = [alice; bob].
Proof. reflexivity. Qed.

(** Another spelling of an identifier denotes the same document: a
    direct send to bob in upper case is filed in the conversation of
    alice and bob, with bob's identifier as the receiver, and a reply
    that spells the conversation's identifier in upper case finds it. *)
Example upper_case_receiver_same_conversation :
  let d := store (@sendMessage hex_oids alice 200 text_to_BOB
                    server_after_hello).1 in
  length (conversations d) = 1
  ∧ (Message.receiver <$> last (messages d)) = Some bob
  ∧ (Message.conversation <$> last (messages d)) = Some (Some (oid_of_nat 1)).
Proof. by vm_compute. Qed.

Example upper_case_conversation_found :
  let d := store (@newMessage hex_oids alice 200 upper_case_reply
                    lettered_server).1 in
  (Message.conversation <$> last (messages d))
  = Some (Some "abcdefabcdefabcdefabcdef")
  ∧ (Conversation.unreadCount <$> head (conversations d)) = Some 1%Z.
Proof. by vm_compute. Qed.

Example absent_ids_acknowledged :
  @markRead hex_oids 200 None server_after_hello
  = (server_after_hello, [Emit ToSender "readReceipt" (PReadReceipt None)]).
Proof. reflexivity. Qed.

(** The count of [PUT /mark-read] is the number of documents the update
    changes: marking at time 200 the message of time 100 counts one, and
    marking it again at that same time counts none. *)
Example mark_read_counts_modified :
  (@put_mark_read hex_oids 200 (Some [oid_of_nat 0]) store_after_hello).2
  = Respond 200 (BMarked 1)
  ∧ (@put_mark_read hex_oids 200 (Some [oid_of_nat 0])
       store_after_mark_read).2
    = Respond 200 (BMarked 0).
Proof. by vm_compute. Qed.

Example match_pair_any_order :
  match_pair [alice; bob] hello_conversation = true.
Proof. reflexivity. Qed.

Example blank_send_rejected :
  @sendMessage hex_oids alice 100 (mkSend (Some bob) (Some (lit "  ")) None)
    server0
  = (server0,
     [error "receiver and either content or attachments is required" None]).
Proof. reflexivity. Qed.

Example malformed_receiver_rejected :
  @sendMessage hex_oids alice 100 (mkSend (Some "bob") (Some (lit "hi")) None)
    server0
  = (server0, [error "Invalid receiver ID format" None]).
Proof. reflexivity. Qed.

Example first_message_creates_conversation :
  messages store_after_hello = [hello_message]
  ∧ conversations store_after_hello = [hello_conversation].
Proof. by vm_compute. Qed.

Example post_created :
  status (@post_message hex_oids 100
            (mkPost (Some alice) (Some bob) (Some (lit "hi")) None)
            empty_db).2 = 201.
Proof. by vm_compute. Qed.

Example third_delay :
  Client.reconnectTimer
    (@Client.attemptReconnect dev_expo unreachable
       (Client.set_attempts 2 started))
  = Some (Client.mkTimeout 4000 true).
Proof. reflexivity. Qed.

(* ===================================================================== *)
(** * Properties of the store operations *)
(* ===================================================================== *)

Section StoreFacts.
Context `{ObjectIdLib}.

Lemma trim_empty (s : js_string) : is_empty s = true → is_empty (trim s) = true.
Proof. destruct s; [reflexivity | discriminate]. Qed.

Lemma pre_save_messages (now : Z) (m : Message.t) (d : db) :
  messages (pre_save now m d).2 = messages d.
Proof.
  unfold pre_save. destruct (Message.conversation m); [reflexivity |].
  destruct (find _ _); reflexivity.
Qed.

(** The hook changes the [conversation] path of the message only. *)
Lemma pre_save_fields (now : Z) (m : Message.t) (d : db) :
  let m' := (pre_save now m d).1 in
  Message._id m' = Message._id m ∧ Message.sender m' = Message.sender m
  ∧ Message.receiver m' = Message.receiver m
  ∧ Message.content m' = Message.content m
  ∧ Message.attachments m' = Message.attachments m
  ∧ Message.read m' = Message.read m ∧ Message.readAt m' = Message.readAt m
  ∧ Message.timestamp m' = Message.timestamp m.
Proof.
  unfold pre_save. destruct (Message.conversation m); [done |].
  destruct (find _ _); done.
Qed.

(** The hook leaves the stored conversations in place and adds at most
    one, with the defaults. *)
Lemma pre_save_conversations (now : Z) (m : Message.t) (d : db) :
  conversations (pre_save now m d).2 = conversations d
  ∨ ∃ id, conversations (pre_save now m d).2
          = conversations d
            ++ [Conversation.mk id [Message.sender m; Message.receiver m]
                  None None None None now 0 now now].
Proof.
  unfold pre_save. destruct (Message.conversation m); [by left |].
  destruct (find _ _); [by left |]. right. by eexists.
Qed.

(** A message with a conversation already set passes the hook as it is. *)
Lemma pre_save_set (now : Z) (m : Message.t) (d : db) :
  is_Some (Message.conversation m) → pre_save now m d = (m, d).
Proof. intros [c Hc]. unfold pre_save. by rewrite Hc. Qed.

(** A save that passes validation appends exactly the saved message. *)
Lemma Message_save_ok (now : Z) (f : MessageFields) (d : db) :
  validate_message f = Ok tt →
  ∃ m d', Message_save now f d = Ok (m, d')
    ∧ messages d' = messages d ++ [m]
    ∧ Message.sender m = canonical (f_sender f)
    ∧ Message.receiver m = stored_id (f_receiver f)
    ∧ Message.content m = f_content f
    ∧ Message.attachments m = f_attachments f
    ∧ Message.read m = false ∧ Message.readAt m = None
    ∧ Message.timestamp m = now
    ∧ (conversations d' = conversations d
       ∨ ∃ id, conversations d'
               = conversations d
                 ++ [Conversation.mk id
                       [canonical (f_sender f); stored_id (f_receiver f)]
                       None None None None now 0 now now]).
Proof.
  intros Hv. unfold Message_save. rewrite Hv. simpl.
  set (m0 := Message.mk _ _ _ _ _ _ _ _ _ _ _).
  set (d1 := mkDb _ _ _).
  pose proof (pre_save_messages now m0 d1) as Hm.
  pose proof (pre_save_fields now m0 d1) as Hf.
  pose proof (pre_save_conversations now m0 d1) as Hc.
  destruct (pre_save now m0 d1) as [m' d2]. simpl in *.
  destruct Hf as (_ & ? & ? & ? & ? & ? & ? & ?).
  exists m', (mkDb (messages d2 ++ [m']) (conversations d2) (oids d2)).
  simpl. rewrite Hm. by repeat split.
Qed.

(** A save that fails validation throws and writes nothing. *)
Lemma Message_save_throw (now : Z) (f : MessageFields) (d : db) (e : exn) :
  validate_message f = Throw e → Message_save now f d = Throw e.
Proof. intros Hv. unfold Message_save. by rewrite Hv. Qed.

Lemma validate_message_ok (f : MessageFields) :
  from_option isValid true (f_conversation f) = true →
  isValid (f_sender f) = true → valid_val (f_receiver f) = true →
  is_empty (f_content f) && bool_decide (f_attachments f = []) = false →
  validate_message f = Ok tt.
Proof.
  intros Hc Hs Hr He. unfold validate_message, cast_val, cast_oid.
  destruct (f_receiver f) as [r | o]; simpl in Hr;
    destruct (f_conversation f) as [c |]; simpl in *;
    rewrite ?Hc, Hs, ?Hr; simpl; by rewrite He.
Qed.

Lemma Conversation_upsert_messages now ps preview from on_insert (d : db) :
  messages (Conversation_upsert now ps preview from on_insert d).2
  = messages d.
Proof. unfold Conversation_upsert. destruct (find _ _); reflexivity. Qed.

End StoreFacts.

(* ===================================================================== *)
(** * The presence registry *)
(* ===================================================================== *)

(** C9.  The disconnect handler deletes the presence entry of the user
    without looking at the socket id stored there.  When a user connects
    a second time (the entry now names the second socket) and the first
    connection then disconnects, the second connection is still live (it
    is still in the user's room) but the registry has no entry for the
    user: a lookup reports the user absent. *)
Theorem C9_stale_disconnect_drops_live_entry (s : server) (u s1 s2 : string) :
  s1 ≠ s2 →
  let twice := connection s2 u (connection s1 u s) in
  let after := disconnect s1 u twice in
  onlineUsers twice !! u = Some s2
  ∧ (u, s2) ∈ rooms after
  ∧ onlineUsers after !! u = None
  ∧ truthy (onlineUsers after !! u) = None.
Proof.
  intros Hne. simpl. rewrite lookup_insert_eq, lookup_delete_eq.
  repeat split; try done.
  rewrite !filter_cons. simpl.
  destruct (decide (s2 ≠ s1)) as [_ | Hc]; [| by destruct Hc].
  apply list_elem_of_here.
Qed.

Lemma C9_witness :
  let twice := connection "s2" alice (connection "s1" alice server0) in
  let after := disconnect "s1" alice twice in
  onlineUsers twice !! alice = Some "s2"
  ∧ (alice, "s2") ∈ rooms after
  ∧ onlineUsers after !! alice = None
  ∧ truthy (onlineUsers after !! alice) = None.
Proof.
  apply (C9_stale_disconnect_drops_live_entry server0 alice "s1" "s2").
  discriminate.
Defined.

(* ===================================================================== *)
(** * Read marking *)
(* ===================================================================== *)

Section ReadMarking.
Context `{ObjectIdLib}.

Lemma cast_ids_ok (ids : list string) :
  forallb isValid ids = true → cast_ids ids = Ok (canonical <$> ids).
Proof. intros Hv. unfold cast_ids. by rewrite Hv. Qed.

Lemma updateMany_lookup filter update (d : db) (i : nat) (m : Message.t) :
  messages d !! i = Some m →
  messages (Message_updateMany filter update d) !! i
  = Some (if filter m then update m else m).
Proof. intros Hi. simpl. by rewrite list_lookup_fmap, Hi. Qed.

(** C10.  For a non-empty list of well-formed identifiers, the route
    [PUT /mark-read] sets [read] on every message whose identifier is
    listed (in whatever spelling) and leaves its [readAt] at the value
    it had (null for a message never read), while the socket event
    [markRead] sets [read] and sets [readAt] to the time of the call on
    the same messages. *)
Theorem C10_http_mark_read_keeps_readAt
    (now : Z) (ids : list string) (s : server) (i : nat) (m : Message.t) :
  ids ≠ [] → forallb isValid ids = true →
  messages (store s) !! i = Some m → Message._id m ∈ canonical <$> ids →
  (∃ m', messages (put_mark_read now (Some ids) (store s)).1 !! i = Some m'
         ∧ Message._id m' = Message._id m
         ∧ Message.read m' = true
         ∧ Message.readAt m' = Message.readAt m)
  ∧ (∃ m', messages (store (markRead now (Some ids) s).1) !! i = Some m'
           ∧ Message._id m' = Message._id m
           ∧ Message.read m' = true
           ∧ Message.readAt m' = Some now).
Proof.
  intros Hne Hv Hi Hin.
  assert (Hid : id_in (canonical <$> ids) m = true)
    by (by apply bool_decide_eq_true).
  split.
  - unfold put_mark_read. destruct ids as [| x ids']; [done |].
    rewrite (cast_ids_ok _ Hv). cbn [fst].
    rewrite (updateMany_lookup _ _ _ _ _ Hi), Hid. by eexists.
  - unfold markRead. rewrite (cast_ids_ok _ Hv). cbn [fst store].
    rewrite (updateMany_lookup _ _ _ _ _ Hi), Hid. by eexists.
Qed.

End ReadMarking.

(* ===================================================================== *)
(** * The direct-send dialect *)
(* ===================================================================== *)

Section DirectSend.
Context `{ObjectIdLib}.

(** A direct send that passes both validations, from a caller whose
    identity is an identifier: the message is appended to the store and
    the emissions are those of the success path. *)
Lemma sendMessage_valid (userId : string) (now : Z) (ev : SendMessage)
    (s : server) (receiver : string) :
  isValid userId = true →
  sm_receiver ev = Some receiver →
  receiver_missing_or_malformed ev || nothing_to_send ev = false →
  ∃ m d1,
    Message_save now
      (mkFields None userId (Str receiver) (default [] (sm_content ev))
         (default [] (sm_attachments ev))) (store s) = Ok (m, d1)
    ∧ sendMessage userId now ev s
      = default (s, [])
          (match sendMessage_try userId now receiver
                   (default [] (sm_content ev))
                   (default [] (sm_attachments ev)) s with
           | Ok r => Some r
           | Throw _ => None
           end)
    ∧ messages d1 = messages (store s) ++ [m]
    ∧ messages (store (sendMessage userId now ev s).1) = messages d1
    ∧ Message.sender m = canonical userId
    ∧ Message.receiver m = canonical receiver
    ∧ Message.content m = default [] (sm_content ev)
    ∧ Message.attachments m = default [] (sm_attachments ev).
Proof.
  intros Hu Hr Hok.
  apply orb_false_iff in Hok as [Hrec Hnothing].
  unfold receiver_missing_or_malformed in Hrec. rewrite Hr in Hrec.
  apply orb_false_iff in Hrec as [Hne Hvalid].
  apply negb_false_iff in Hvalid.
  unfold nothing_to_send in Hnothing.
  set (content := default [] (sm_content ev)) in *.
  set (attachments := default [] (sm_attachments ev)) in *.
  assert (Hlen : is_empty (trim content) && (length attachments =? 0)%nat
                 = false).
  { destruct (is_empty (trim content)); [| done]. simpl in *.
    destruct attachments; [done | reflexivity]. }
  assert (Hval : validate_message
                   (mkFields None userId (Str receiver) content attachments)
                 = Ok tt).
  { apply validate_message_ok; simpl; try done.
    destruct (is_empty content) eqn:He; [| done].
    by rewrite (trim_empty _ He) in Hnothing. }
  destruct (Message_save_ok now _ (store s) Hval)
    as (m & d1 & Hsave & Hmsgs & Hs & Hrcv & Hc & Ha & _).
  simpl in Hs, Hrcv, Hc, Ha.
  assert (Htry : ∃ out,
    sendMessage_try userId now receiver content attachments s
    = Ok (mkServer
            (Conversation_upsert now
               (sort2 (canonical userId) (canonical receiver))
               (preview_of content attachments) (canonical userId)
               [canonical userId; canonical receiver] d1).2
            (onlineUsers s) (rooms s), out)).
  { unfold sendMessage_try. rewrite Hsave, Hu, Hvalid.
    cbn [mbind result_bind].
    destruct (Conversation_upsert _ _ _ _ _ d1) as [c d2]. by eexists. }
  destruct Htry as [out Htry].
  assert (Hsend : sendMessage userId now ev s
                  = (mkServer
                       (Conversation_upsert now
                          (sort2 (canonical userId) (canonical receiver))
                          (preview_of content attachments) (canonical userId)
                          [canonical userId; canonical receiver] d1).2
                       (onlineUsers s) (rooms s), out)).
  { unfold sendMessage. rewrite Hr. unfold truthy. rewrite Hne.
    fold content attachments. by rewrite Hlen, Hvalid, Htry. }
  exists m, d1. rewrite Hsend, Htry. simpl.
  by rewrite Conversation_upsert_messages.
Qed.

(** C2.  A direct send whose receiver is missing or malformed, or whose
    trimmed content and attachment list are both empty, gets a single
    validation error and the relay's state is unchanged; any other
    direct send (so also one with attachments and empty content), by a
    caller whose identity is an identifier, appends to the store one
    message with the caller as sender, carrying the receiver (both as
    the identifiers that the two strings denote), the content and the
    attachments of the event, and acknowledges it to the sender. *)
Theorem C2_sendMessage_validates_then_persists
    (userId : string) (now : Z) (ev : SendMessage) (s : server) :
  isValid userId = true →
  if receiver_missing_or_malformed ev || nothing_to_send ev
  then ∃ msg, sendMessage userId now ev s = (s, [error msg None])
  else ∃ m,
    messages (store (sendMessage userId now ev s).1)
    = messages (store s) ++ [m]
    ∧ Message.sender m = canonical userId
    ∧ Some (Message.receiver m) = canonical <$> sm_receiver ev
    ∧ Message.content m = default [] (sm_content ev)
    ∧ Message.attachments m = default [] (sm_attachments ev)
    ∧ Emit ToSender "messageSaved" (PMessage m)
      ∈ (sendMessage userId now ev s).2.
Proof.
  intros Hu.
  destruct (receiver_missing_or_malformed ev || nothing_to_send ev) eqn:Hbad.
  - unfold sendMessage, receiver_missing_or_malformed, nothing_to_send in *.
    destruct (sm_receiver ev) as [r |]; simpl in *; [| by eexists].
    destruct (bool_decide (r = "")); simpl in *; [by eexists |].
    destruct (is_empty (trim (default [] (sm_content ev)))); simpl in *.
    + destruct (default [] (sm_attachments ev)); simpl in *; [by eexists |].
      rewrite orb_false_r in Hbad. rewrite Hbad. by eexists.
    + rewrite orb_false_r in Hbad. rewrite Hbad. by eexists.
  - destruct (sm_receiver ev) as [receiver |] eqn:Hr;
      [| by unfold receiver_missing_or_malformed in Hbad; rewrite Hr in Hbad].
    destruct (sendMessage_valid userId now ev s receiver Hu Hr Hbad)
      as (m & d1 & Hsave & Hsend & Hmsgs & Hstore & Hs & Hrcv & Hc & Ha).
    exists m. rewrite Hstore, Hmsgs, Hrcv. repeat split; try done.
    rewrite Hsend. unfold sendMessage_try. rewrite Hsave.
    cbn [mbind result_bind].
    destruct (Conversation_upsert _ _ _ _ _ d1) as [c d2]. simpl.
    destruct (truthy _); set_solver.
Qed.


(** The [receiveMessage] shape of a direct send is an alternative: with
    a socket id stored for the receiver it goes to that socket only. *)
Lemma sendMessage_receiveMessage_to_handle
    (userId : string) (now : Z) (ev : SendMessage) (s : server)
    (receiver h : string) (e : emission) :
  isValid userId = true →
  sm_receiver ev = Some receiver →
  receiver_missing_or_malformed ev || nothing_to_send ev = false →
  onlineUsers s !! receiver = Some h → h ≠ "" →
  e ∈ (sendMessage userId now ev s).2 → event e = "receiveMessage" →
  to e = ToRoom h.
Proof.
  intros Hu Hr Hok Hh Hne.
  destruct (sendMessage_valid userId now ev s receiver Hu Hr Hok)
    as (m & d1 & Hsave & Hsend & _).
  rewrite Hsend. unfold sendMessage_try. rewrite Hsave.
  cbn [mbind result_bind].
  destruct (Conversation_upsert _ _ _ _ _ d1) as [c d2].
  rewrite Hh. unfold truthy. rewrite (bool_decide_eq_false_2 _ Hne). simpl.
  intros Hin Hev.
  repeat (apply elem_of_cons in Hin as [-> | Hin]; [by simpl in * |]).
  by apply not_elem_of_nil in Hin.
Qed.

End DirectSend.

(* ===================================================================== *)
(** * The conversation-centric dialect and the unread counter *)
(* ===================================================================== *)

Section ConversationSend.
Context `{ObjectIdLib}.

Lemma update_first_length {A} (p : A → bool) (f : A → A) (l : list A) :
  length (update_first p f l) = length l.
Proof.
  induction l as [| x l IH]; [done |]. simpl.
  destruct (p x); simpl; by rewrite ?IH.
Qed.

(** An update of one document leaves every position holding what it
    held, or the update of what it held. *)
Lemma update_first_lookup {A} (p : A → bool) (f : A → A) (l : list A)
    (i : nat) (y : A) :
  update_first p f l !! i = Some y →
  ∃ x, l !! i = Some x ∧ (y = x ∨ y = f x).
Proof.
  revert i. induction l as [| x l IH]; intros i Hi; [done |].
  simpl in Hi. destruct (p x).
  - destruct i as [| i]; simpl in *; [| by eauto].
    inversion Hi. eauto.
  - destruct i as [| i]; simpl in *; [inversion Hi; eauto |]. by apply IH.
Qed.

Lemma update_first_lookup_Some {A} (p : A → bool) (f : A → A) (l : list A)
    (i : nat) (x : A) :
  l !! i = Some x →
  ∃ y, update_first p f l !! i = Some y ∧ (y = x ∨ y = f x).
Proof.
  intros Hi.
  destruct (update_first p f l !! i) as [y |] eqn:Hy.
  - destruct (update_first_lookup p f l i y Hy) as (x' & Hx' & Hor).
    rewrite Hi in Hx'. inversion Hx'; subst. eauto.
  - apply lookup_ge_None in Hy. rewrite update_first_length in Hy.
    apply lookup_lt_Some in Hi. lia.
Qed.

(** Looking up by the filter of the update finds the updated document. *)
Lemma find_update_first {A} (p : A → bool) (f : A → A) (l : list A) :
  (∀ x, p (f x) = p x) →
  find p (update_first p f l) = f <$> find p l.
Proof.
  intros Hp. induction l as [| x l IH]; [done |]. simpl.
  destruct (p x) eqn:Hx; simpl.
  - by rewrite Hp, Hx.
  - by rewrite Hx.
Qed.

Lemma find_none_elem {A} (p : A → bool) (l : list A) :
  (∀ x, x ∈ l → p x = false) → find p l = None.
Proof.
  intros Hall. destruct (find p l) as [x |] eqn:Hf; [| done].
  apply find_some in Hf as [Hin Hpx]. apply list_elem_of_In in Hin.
  by rewrite (Hall x Hin) in Hpx.
Qed.

(** A message saved into a named conversation does not touch the
    conversation collection. *)
Lemma Message_save_in_conversation (now : Z) (f : MessageFields) (d : db)
    (m : Message.t) (d' : db) :
  is_Some (f_conversation f) →
  Message_save now f d = Ok (m, d') →
  conversations d' = conversations d ∧ messages d' = messages d ++ [m]
  ∧ Message.sender m = canonical (f_sender f)
  ∧ Message.receiver m = stored_id (f_receiver f).
Proof.
  intros Hc. unfold Message_save.
  destruct (validate_message f); [| discriminate]. cbn [mbind result_bind].
  rewrite pre_save_set; [by intros [= <- <-] |].
  simpl. destruct Hc as [c ->]. by eexists.
Qed.

(** What the upsert of the direct send does to the collection: the
    first matching document gets the [$set], or one document is added. *)
Lemma Conversation_upsert_conversations now ps preview from on_insert
    (d : db) :
  conversations (Conversation_upsert now ps preview from on_insert d).2
  = update_first (match_pair ps) (set_last now preview from 0)
      (conversations d)
  ∨ ∃ id, conversations (Conversation_upsert now ps preview from on_insert d).2
          = conversations d
            ++ [Conversation.mk id on_insert (Some preview) None
                  (Some preview) (Some from) now 0 now now].
Proof.
  unfold Conversation_upsert. destruct (find _ _); [by left |].
  right. by eexists.
Qed.

(** C6 (as the code has it).  A conversation-dialect send whose
    [conversationId] names no stored conversation changes nothing in
    the relay's state (no message is written) and the sender gets
    exactly one error: the validation error when the [conversationId]
    or the text is missing or blank, else the not-found error when the
    [conversationId] is a well-formed identifier, and else the failure
    error of the [catch] block, carrying the cast error. *)
Theorem C6_unknown_conversation_writes_nothing
    (userId : string) (now : Z) (ev : NewMessage) (s : server) :
  names_no_conversation ev (store s) →
  (newMessage userId now ev s).1 = s
  ∧ (newMessage userId now ev s).2
    = [if nothing_to_file ev
       then error "Conversation ID and text are required" None
       else if from_option isValid false (nm_conversationId ev)
       then error "Conversation not found" None
       else error "Failed to send message" (Some (CastError "_id"))].
Proof.
  intros Hno.
  assert (Htry : ∀ cid text, nm_conversationId ev = Some cid →
            newMessage_try userId now cid text s
            = if isValid cid
              then Ok (s, [error "Conversation not found" None])
              else Throw (CastError "_id")).
  { intros cid text Hcid. unfold newMessage_try, Conversation_findById, cast_oid.
    destruct (isValid cid) eqn:Hv; [| done]. cbn [mbind result_bind].
    rewrite find_none_elem; [done |]. intros c Hc.
    apply bool_decide_eq_false_2. by apply (Hno cid c). }
  unfold newMessage, nothing_to_file.
  destruct (nm_conversationId ev) as [cid |] eqn:Hcid; simpl; [| done].
  destruct (bool_decide (cid = "")); [done |].
  destruct (nm_text ev) as [text |] eqn:Htext; [| done].
  simpl. rewrite (Htry cid text eq_refl).
  destruct (is_empty (trim text)) eqn:Hblank;
    [by rewrite orb_true_r |].
  destruct (is_empty text) eqn:He;
    [by rewrite (trim_empty _ He) in Hblank |].
  simpl. by destruct (isValid cid).
Qed.

(** C5.  A successful conversation-dialect send leaves the conversation
    with [unreadCount] one higher and with the preview, sender and time
    of the message; a successful direct send leaves the [unreadCount],
    the participants and the identifier of every stored conversation as
    they were (a stored conversation is unchanged or differs in the
    preview, sender and time fields only), and a conversation it adds
    has the two users as participants and [unreadCount] 0.  Each half
    holds on its own conditions. *)
Theorem C5_unread_count_by_dialect
    (userId : string) (now : Z) (s : server) :
  isValid userId = true →
  (∀ (evN : NewMessage) (cid : string) (text : js_string)
     (c : Conversation.t) (recipient : string),
     nm_conversationId evN = Some cid → cid ≠ "" → isValid cid = true →
     nm_text evN = Some text → is_empty (trim text) = false →
     find (fun x => bool_decide (Conversation._id x = canonical cid))
          (conversations (store s)) = Some c →
     find (fun p => negb (bool_decide (p = userId)))
          (Conversation.participants c) = Some recipient →
     ∃ c',
       find (fun x => bool_decide (Conversation._id x = canonical cid))
            (conversations (store (newMessage userId now evN s).1)) = Some c'
       ∧ Conversation.unreadCount c' = (Conversation.unreadCount c + 1)%Z
       ∧ Conversation.lastMessage c' = Some (trim text)
       ∧ Conversation.lastMessageFrom c' = Some (canonical userId)
       ∧ Conversation.lastMessageAt c' = now
       ∧ Conversation.participants c' = Conversation.participants c
       ∧ length (messages (store (newMessage userId now evN s).1))
         = S (length (messages (store s))))
  ∧ (∀ (evS : SendMessage) (receiver : string),
       sm_receiver evS = Some receiver →
       receiver_missing_or_malformed evS || nothing_to_send evS = false →
       (∀ i x',
          conversations (store (sendMessage userId now evS s).1) !! i
          = Some x' →
          match conversations (store s) !! i with
          | Some x =>
              Conversation.unreadCount x' = Conversation.unreadCount x
              ∧ Conversation.participants x' = Conversation.participants x
              ∧ Conversation._id x' = Conversation._id x
              ∧ Conversation.lastMessageId x' = Conversation.lastMessageId x
              ∧ Conversation.createdAt x' = Conversation.createdAt x
              ∧ (x' = x
                 ∨ Conversation.lastMessage x'
                   = Some (preview_of (default [] (sm_content evS))
                             (default [] (sm_attachments evS)))
                   ∧ Conversation.lastMessageFrom x' = Some (canonical userId)
                   ∧ Conversation.lastMessageAt x' = now)
          | None =>
              Conversation.unreadCount x' = 0%Z
              ∧ Conversation.participants x'
                = [canonical userId; canonical receiver]
          end)
       ∧ length (conversations (store s))
         ≤ length (conversations (store (sendMessage userId now evS s).1))).
Proof.
  intros Hu. split.
  - intros evN cid text c recipient Hcid Hne Hv Htext Hblank Hfind Hrec.
    assert (Hval : validate_message
                     (mkFields (Some cid) userId (Oid recipient) (trim text)
                        [])
                   = Ok tt).
    { apply validate_message_ok; simpl; try done.
      by rewrite Hblank. }
    destruct (Message_save_ok now _ (store s) Hval)
      as (m & d1 & Hsave & _).
    assert (Hset : is_Some (f_conversation
                              (mkFields (Some cid) userId (Oid recipient)
                                 (trim text) []))) by (by eexists).
    destruct (Message_save_in_conversation now _ _ _ _ Hset Hsave)
      as (Hconv & Hmsgs & _).
    assert (Hrun : ∃ out, newMessage userId now evN s
              = (mkServer
                   (Conversation_touch now (canonical cid) (trim text)
                      (canonical userId) d1)
                   (onlineUsers s) (rooms s), out)).
    { unfold newMessage. rewrite Hcid, Htext. unfold truthy.
      rewrite (bool_decide_eq_false_2 _ Hne). unfold falsy_text.
      destruct (is_empty text) eqn:He;
        [by rewrite (trim_empty _ He) in Hblank |].
      rewrite Hblank. simpl.
      unfold newMessage_try, Conversation_findById, cast_oid. rewrite Hv.
      cbn [mbind result_bind]. rewrite Hfind, Hrec, Hsave.
      cbn [mbind result_bind]. by eexists. }
    destruct Hrun as [out ->]. simpl.
    rewrite find_update_first by done. rewrite Hconv, Hfind. simpl.
    eexists. split; [reflexivity |]. simpl.
    rewrite Hmsgs, length_app. simpl. repeat split; try done. lia.
  - intros evS receiver Hr Hok.
    destruct (sendMessage_valid userId now evS s receiver Hu Hr Hok)
      as (m & d1 & Hsave & Hsend & _).
    assert (Hrv : isValid receiver = true).
    { apply orb_false_iff in Hok as [Hrec _].
      unfold receiver_missing_or_malformed in Hrec. rewrite Hr in Hrec.
      apply orb_false_iff in Hrec as [_ Hrv]. by apply negb_false_iff in Hrv. }
    set (content := default [] (sm_content evS)) in *.
    set (attachments := default [] (sm_attachments evS)) in *.
    assert (Hval : validate_message
                     (mkFields None userId (Str receiver) content attachments)
                   = Ok tt).
    { unfold Message_save in Hsave.
      destruct (validate_message _) as [[] |]; [done | discriminate]. }
    destruct (Message_save_ok now _ (store s) Hval)
      as (m' & d1' & Hsave' & _ & _ & _ & _ & _ & _ & _ & _ & Hhook).
    rewrite Hsave in Hsave'. inversion Hsave'; subst m' d1'. clear Hsave'.
    simpl in Hhook.
    set (u := canonical userId) in *.
    set (r := canonical receiver) in *.
    assert (Hstore : conversations (store (sendMessage userId now evS s).1)
              = conversations
                  (Conversation_upsert now (sort2 u r)
                     (preview_of content attachments) u [u; r] d1).2).
    { rewrite Hsend. unfold sendMessage_try. rewrite Hsave, Hu, Hrv.
      cbn [mbind result_bind]. fold u r.
      by destruct (Conversation_upsert _ _ _ _ _ d1). }
    rewrite Hstore.
    set (old := conversations (store s)) in *.
    set (F := set_last now (preview_of content attachments) u 0).
    assert (HF : ∀ x, Conversation.unreadCount (F x) = Conversation.unreadCount x
               ∧ Conversation.participants (F x) = Conversation.participants x
               ∧ Conversation._id (F x) = Conversation._id x
               ∧ Conversation.lastMessageId (F x) = Conversation.lastMessageId x
               ∧ Conversation.createdAt (F x) = Conversation.createdAt x
               ∧ Conversation.lastMessage (F x)
                 = Some (preview_of content attachments)
               ∧ Conversation.lastMessageFrom (F x) = Some u
               ∧ Conversation.lastMessageAt (F x) = now).
    { intros x. simpl. repeat split. lia. }
    assert (Hkeep : ∀ x x', x' = x ∨ x' = F x →
              Conversation.unreadCount x' = Conversation.unreadCount x
              ∧ Conversation.participants x' = Conversation.participants x
              ∧ Conversation._id x' = Conversation._id x
              ∧ Conversation.lastMessageId x' = Conversation.lastMessageId x
              ∧ Conversation.createdAt x' = Conversation.createdAt x
              ∧ (x' = x
                 ∨ Conversation.lastMessage x'
                   = Some (preview_of content attachments)
                   ∧ Conversation.lastMessageFrom x' = Some u
                   ∧ Conversation.lastMessageAt x' = now)).
    { intros x x' [-> | ->]; [by repeat split; try left |].
      destruct (HF x) as (? & ? & ? & ? & ? & ? & ? & ?).
      repeat split; try done. by right. }
    assert (Hnew : ∀ (x x' : Conversation.t),
              Conversation.unreadCount x = 0%Z →
              Conversation.participants x = [u; r] →
              x' = x ∨ x' = F x →
              Conversation.unreadCount x' = 0%Z
              ∧ Conversation.participants x' = [u; r]).
    { intros x x' H0 Hp [-> | ->]; [done |].
      destruct (HF x) as (-> & -> & _). done. }
    destruct (Conversation_upsert_conversations now (sort2 u r)
                (preview_of content attachments) u [u; r] d1)
      as [-> | [id ->]];
      destruct Hhook as [-> | [id' ->]]; fold old.
    + split; [| by rewrite update_first_length].
      intros i x' Hi.
      destruct (update_first_lookup _ _ _ _ _ Hi) as (x & -> & Hor).
      by apply Hkeep.
    + split; [| rewrite update_first_length, length_app; lia].
      intros i x' Hi.
      destruct (update_first_lookup _ _ _ _ _ Hi) as (x & Hx & Hor).
      destruct (old !! i) as [y |] eqn:Hy.
      * rewrite (lookup_app_l_Some _ _ _ _ Hy) in Hx. inversion Hx; subst.
        by apply Hkeep.
      * apply lookup_ge_None in Hy. rewrite lookup_app_r in Hx by done.
        destruct (i - length old) as [| k]; simpl in Hx; [| done].
        inversion Hx; subst x. refine (Hnew _ _ _ _ Hor); reflexivity.
    + split; [| rewrite length_app; lia].
      intros i x' Hi.
      destruct (old !! i) as [y |] eqn:Hy.
      * rewrite (lookup_app_l_Some _ _ _ _ Hy) in Hi. inversion Hi; subst.
        apply Hkeep. by left.
      * apply lookup_ge_None in Hy. rewrite lookup_app_r in Hi by done.
        destruct (i - length old) as [| k]; simpl in Hi; [| done].
        by inversion Hi.
    + split; [| rewrite !length_app; lia].
      intros i x' Hi.
      destruct (old !! i) as [y |] eqn:Hy.
      * rewrite <- app_assoc in Hi.
        rewrite (lookup_app_l_Some _ _ _ _ Hy) in Hi. inversion Hi; subst.
        apply Hkeep. by left.
      * apply lookup_ge_None in Hy. rewrite <- app_assoc in Hi.
        rewrite lookup_app_r in Hi by done.
        destruct (i - length old) as [| [| k]]; simpl in Hi;
          inversion Hi; subst; done.
Qed.

End ConversationSend.

(* ===================================================================== *)
(** * The read-state tracker: reading on fetch *)
(* ===================================================================== *)

Section ReadOnFetch.
Context `{ObjectIdLib}.

Lemma find_is_Some {A} (p : A → bool) (l : list A) (x : A) :
  x ∈ l → p x = true → is_Some (find p l).
Proof.
  intros Hin Hp. destruct (find p l) as [y |] eqn:Hf; [by eexists |].
  apply list_elem_of_In in Hin.
  by rewrite (find_none _ _ Hf x Hin) in Hp.
Qed.

(** C3 (as the code has it).  When participant [P] fetches the history
    of a conversation (both named by strings that denote their
    identifiers), every message of that conversation not sent by
    [P] that was unread becomes [read] with [readAt] the time of the
    fetch; every other message, also one already read (whatever its
    [readAt], null included), stays as it was; after the fetch every
    message of the conversation not sent by [P] is [read]; and the
    conversation's [unreadCount] is 0.  No mark-read call is involved. *)
Theorem C3_fetch_marks_unread_messages
    (P : string) (now : Z) (cid : string) (d : db) (c : Conversation.t) :
  isValid cid = true → isValid P = true →
  c ∈ conversations d → Conversation._id c = canonical cid →
  canonical P ∈ Conversation.participants c →
  (∀ i m, messages d !! i = Some m →
     ∃ m', messages (get_messages P now cid d).1 !! i = Some m'
       ∧ Message._id m' = Message._id m
       ∧ (Message.conversation m = Some (canonical cid) → Message.sender m ≠ canonical P →
          Message.read m = false →
          Message.read m' = true ∧ Message.readAt m' = Some now)
       ∧ (Message.conversation m ≠ Some (canonical cid) ∨ Message.sender m = canonical P
          ∨ Message.read m = true → m' = m))
  ∧ (∀ m', m' ∈ messages (get_messages P now cid d).1 →
       Message.conversation m' = Some (canonical cid) → Message.sender m' ≠ canonical P →
       Message.read m' = true)
  ∧ (∃ c', find (fun x => bool_decide (Conversation._id x = canonical cid))
                (conversations (get_messages P now cid d).1) = Some c'
           ∧ Conversation.unreadCount c' = 0%Z
           ∧ Conversation._id c' = canonical cid).
Proof.
  intros Hv HvP Hc Hid HP.
  assert (Hfound : is_Some
            (find (fun x => bool_decide (Conversation._id x = canonical cid)
                            && bool_decide (canonical P ∈ Conversation.participants x))
                  (conversations d))).
  { apply (find_is_Some _ _ c Hc).
    by rewrite !bool_decide_eq_true_2. }
  destruct Hfound as [c0 Hc0].
  assert (Hrun : (get_messages P now cid d).1
            = mkDb ((fun m => if unread_from_other (canonical cid) (canonical P) m
                              then set_read_at now m else m) <$> messages d)
                   (update_first
                      (fun x => bool_decide (Conversation._id x = canonical cid))
                      (reset_unread now) (conversations d))
                   (oids d)).
  { unfold get_messages, cast_oid. rewrite Hv, HvP.
    cbn [mbind result_bind]. by rewrite Hc0. }
  rewrite Hrun. cbn [messages conversations].
  assert (Hcase : ∀ m,
            (unread_from_other (canonical cid) (canonical P) m = true
             ∧ Message.conversation m = Some (canonical cid) ∧ Message.sender m ≠ canonical P
             ∧ Message.read m = false)
            ∨ (unread_from_other (canonical cid) (canonical P) m = false
               ∧ (Message.conversation m ≠ Some (canonical cid) ∨ Message.sender m = canonical P
                  ∨ Message.read m = true))).
  { intros m. unfold unread_from_other.
    destruct (decide (Message.conversation m = Some (canonical cid))) as [Hmc | Hmc];
      [| right; rewrite (bool_decide_eq_false_2 _ Hmc); eauto].
    destruct (decide (Message.sender m = canonical P)) as [Hs | Hs];
      [right; rewrite (bool_decide_eq_true_2 _ Hs), andb_false_r; eauto |].
    destruct (Message.read m) eqn:Hread;
      [right; rewrite andb_false_r; eauto |].
    left. by rewrite (bool_decide_eq_true_2 _ Hmc),
            (bool_decide_eq_false_2 _ Hs). }
  split; [| split].
  - intros i m Hi. rewrite list_lookup_fmap, Hi. simpl.
    destruct (Hcase m) as [(-> & Hmc & Hs & Hread) | (-> & Hor)].
    + eexists. split; [reflexivity |]. simpl.
      split; [done |]. split; [done |].
      intros [? | [? | ?]]; congruence.
    + exists m. split; [done |]. split; [done |]. split; [| done].
      intros Hmc Hs Hread. destruct Hor as [? | [? | ?]]; congruence.
  - intros m' Hin Hmc Hs.
    apply list_elem_of_fmap in Hin as (m & -> & _).
    destruct (Hcase m) as [(Hu & _) | (Hu & Hor)]; rewrite Hu in *; [done |].
    destruct Hor as [? | [? | ?]]; congruence.
  - rewrite find_update_first by done.
    destruct (find_is_Some
                (fun x => bool_decide (Conversation._id x = canonical cid))
                _ c Hc) as [c1 Hc1]; [by apply bool_decide_eq_true_2 |].
    rewrite Hc1. simpl. eexists. split; [reflexivity |]. simpl.
    apply find_some in Hc1 as [_ Hc1].
    apply bool_decide_eq_true in Hc1. done.
Qed.

End ReadOnFetch.

(** C3 as stated fails.  Bob sends alice a first message; the route
    [PUT /mark-read] marks it (it sets [read] and leaves [readAt] null);
    alice then fetches the history of the conversation.  The fetch
    succeeds, yet the message, which alice did not send, still has a null
    [readAt] afterwards: the fetch only touches messages with
    [read: false]. *)
Lemma C3_counterexample :
  status (@get_messages hex_oids alice 300 (oid_of_nat 1)
            store_after_mark_read).2 = 200
  ∧ ∃ m, m ∈ messages store_after_fetch
         ∧ Message.conversation m = Some (oid_of_nat 1)
         ∧ Message.sender m ≠ alice
         ∧ Message.read m = true
         ∧ Message.readAt m = None.
Proof.
  split; [by vm_compute |].
  eexists. split.
  - assert (Hm : ∃ x, messages store_after_fetch = [x])
      by (vm_compute; by eexists).
    vm_compute. apply list_elem_of_here.
  - by vm_compute.
Qed.

(* ===================================================================== *)
(** * Find-or-create of the conversation under interleaving *)
(* ===================================================================== *)

Section FindOrCreate.
Context `{ObjectIdLib}.

(** The program of a direct send, run alone, is the handler's effect on
    the store. *)
Lemma sendMessage_prog_alone (userId : string) (now : Z) (receiver : string)
    (content : js_string) (attachments : list string) (s : server) :
  run_alone (sendMessage_prog userId now receiver content attachments)
    (store s)
  = match sendMessage_try userId now receiver content attachments s with
    | Ok r => store r.1
    | Throw _ => store s
    end.
Proof.
  unfold sendMessage_prog, Message_save_prog, sendMessage_try, Message_save.
  destruct (validate_message _); [| done].
  unfold pre_save_prog, pre_save, insert_conversation, new_Conversation.
  simpl.
  destruct (find _ (conversations (store s))); simpl;
    match goal with
    | |- context [Conversation_upsert ?a ?b ?c ?d ?e ?f] =>
        by destruct (Conversation_upsert a b c d e f)
    end.
Qed.

(** The program of [POST /], run alone, is the route's effect on the
    store. *)
Lemma post_message_prog_alone (now : Z) (sender receiver : string)
    (content : js_string) (attachments : list string) (d : db) :
  sender ≠ "" → receiver ≠ "" →
  is_empty (trim content) && (length attachments =? 0)%nat = false →
  run_alone (post_message_prog now sender receiver content attachments) d
  = (post_message now
       (mkPost (Some sender) (Some receiver) (Some content) (Some attachments))
       d).1.
Proof.
  intros Hs Hr Hne.
  unfold post_message_prog, Message_save_prog, post_message, Message_save.
  simpl.
  rewrite (bool_decide_eq_false_2 _ Hs), (bool_decide_eq_false_2 _ Hr), Hne.
  simpl.
  destruct (validate_message _); [| done].
  unfold pre_save_prog, pre_save. simpl.
  destruct (find _ (conversations d)) as [c0 |]; simpl.
  - by destruct (find _ (conversations d)) as [c1 |].
  - unfold insert_conversation, new_Conversation. simpl.
    by destruct (find _ (conversations d ++ _)) as [c1 |].
Qed.

Lemma filter_update_first_length {A} (p q : A → bool) (f : A → A)
    (l : list A) :
  (∀ x, q (f x) = q x) →
  length (filter (fun x => q x = true) (update_first p f l))
  = length (filter (fun x => q x = true) l).
Proof.
  intros Hq. induction l as [| x l IH]; [done |]. simpl.
  destruct (p x).
  - rewrite !filter_cons, Hq. by destruct (decide (q x = true)).
  - rewrite !filter_cons. destruct (decide (q x = true)); simpl; by rewrite IH.
Qed.

Lemma filter_none_length {A} (q : A → bool) (l : list A) :
  find q l = None → length (filter (fun x => q x = true) l) = 0.
Proof.
  intros Hf. induction l as [| x l IH]; [done |]. simpl in Hf.
  destruct (q x) eqn:Hx; [done |].
  rewrite filter_cons. destruct (decide (q x = true)); [congruence |].
  by apply IH.
Qed.

(** One upsert for a pair keeps the number of documents of the pair at
    most one. *)
Lemma Conversation_upsert_at_most_one now ps preview from on_insert (d : db) :
  count_pair ps d ≤ 1 →
  count_pair ps (Conversation_upsert now ps preview from on_insert d).2 ≤ 1.
Proof.
  unfold count_pair, Conversation_upsert. intros Hle.
  destruct (find _ _) eqn:Hf; simpl.
  - by rewrite filter_update_first_length.
  - rewrite filter_app, length_app, (filter_none_length _ _ Hf).
    rewrite filter_cons. destruct (decide _); simpl; lia.
Qed.

Lemma step_at_upsert_only ps (i : nat) (pool : list prog) (d : db) :
  Forall (upsert_only ps) pool → count_pair ps d ≤ 1 →
  Forall (upsert_only ps) (step_at i pool d).1
  ∧ count_pair ps (step_at i pool d).2 ≤ 1.
Proof.
  revert i. induction pool as [| p pool IH]; intros i Hall Hle; [done |].
  apply Forall_cons in Hall as [Hp Hall].
  destruct i as [| i]; simpl.
  - destruct p; try done; simpl in Hp.
    + split; [by apply Forall_cons | done].
    + destruct Hp as (-> & _ & _ & Hk).
      pose proof (Conversation_upsert_at_most_one now ps preview from
                    on_insert d Hle) as Hle'.
      simpl. destruct (Conversation_upsert _ _ _ _ _ d) as [c d'].
      simpl in *.
      split; [| done]. apply Forall_cons. split; [| done]. by rewrite Hk.
  - specialize (IH i Hall Hle).
    destruct (step_at i pool d) as [pool' d']. simpl in *.
    destruct IH as [IH1 IH2]. split; [| done]. by apply Forall_cons.
Qed.

(** What the specification asks for.  Were every path a single upsert,
    no schedule could leave two conversations for a pair. *)
Lemma upsert_only_at_most_one ps (sched : list nat) (pool : list prog)
    (d : db) :
  Forall (upsert_only ps) pool → count_pair ps d ≤ 1 →
  count_pair ps (run_schedule sched pool d).2 ≤ 1.
Proof.
  revert pool d. induction sched as [| i sched IH]; intros pool d Hall Hle;
    [done |].
  simpl. destruct (step_at_upsert_only ps i pool d Hall Hle) as [H1 H2].
  destruct (step_at i pool d) as [pool' d']. by apply IH.
Qed.

End FindOrCreate.

(** C1 fails on the code.  Only the upsert of [sendMessage] is a single
    store operation; the pre-save hook of every saved message and the
    route [POST /] look the conversation up and insert it in two
    operations.  Run one after the other, two first messages between
    alice and bob leave one conversation.  Interleaved so that both
    hooks look before either inserts, two [POST /] requests leave two
    conversations for the pair, and so do two [sendMessage] events (the
    hook runs inside their save, before the upsert). *)
Theorem C1_find_then_insert_duplicates :
  count_pair [alice; bob] (run_race one_after_the_other two_posts).2 = 1
  ∧ count_pair [alice; bob] (run_race one_after_the_other two_sends).2 = 1
  ∧ forallb finished (run_race both_find_first two_posts).1 = true
  ∧ count_pair [alice; bob] (run_race both_find_first two_posts).2 = 2
  ∧ forallb finished (run_race both_find_first two_sends).1 = true
  ∧ count_pair [alice; bob] (run_race both_find_first two_sends).2 = 2.
Proof. by vm_compute. Qed.

(* ===================================================================== *)
(** * The client socket manager: backoff *)
(* ===================================================================== *)

Section Backoff.
Import Client.
Context `{Expo}.

Lemma initializeSocket_attempts (m : manager) :
  reconnectAttempts (initializeSocket m) = reconnectAttempts m.
Proof.
  unfold initializeSocket. destruct (token m); [| done].
  by destruct (socket m).
Qed.

Lemma tryFallbackUrls_attempts reach (m : manager) :
  reconnectAttempts (tryFallbackUrls reach m).2 = reconnectAttempts m.
Proof. unfold tryFallbackUrls. by destruct (find _ _). Qed.

Lemma attemptReconnect_le reach (m : manager) :
  reconnectAttempts m ≤ MAX_RECONNECT_ATTEMPTS →
  reconnectAttempts (attemptReconnect reach m) ≤ MAX_RECONNECT_ATTEMPTS.
Proof.
  intros Hle. unfold attemptReconnect.
  destruct (MAX_RECONNECT_ATTEMPTS <=? reconnectAttempts m)%nat eqn:Hcap.
  - pose proof (tryFallbackUrls_attempts reach m) as Ht.
    destruct (tryFallbackUrls reach m) as [[] m1]; simpl in *.
    + rewrite initializeSocket_attempts. simpl. lia.
    + lia.
  - apply Nat.leb_gt in Hcap. simpl. lia.
Qed.

Lemma run_handler_le (e : signal) (h : handler) (m : manager) :
  reconnectAttempts m ≤ MAX_RECONNECT_ATTEMPTS →
  reconnectAttempts (run_handler e h m) ≤ MAX_RECONNECT_ATTEMPTS.
Proof.
  intros Hle. destruct h as [| cb |], e as [| r r' | reason r |]; simpl;
    try done.
  - unfold on_connect, reapplyEventListeners. simpl.
    destruct (socket m); simpl; lia.
  - unfold on_connect_error.
    pose proof (tryFallbackUrls_attempts r (set_status ERROR m)) as Ht.
    destruct (tryFallbackUrls r (set_status ERROR m)) as [[] m1];
      simpl in *.
    + rewrite initializeSocket_attempts. lia.
    + apply attemptReconnect_le. lia.
  - unfold on_disconnect. destruct (_ || _); [| done].
    by apply attemptReconnect_le.
Qed.

Lemma dispatch_le (e : signal) (m : manager) :
  reconnectAttempts m ≤ MAX_RECONNECT_ATTEMPTS →
  reconnectAttempts (dispatch e m) ≤ MAX_RECONNECT_ATTEMPTS.
Proof.
  unfold dispatch. destruct (socket m) as [sk |]; [| done].
  intros Hle.
  assert (Hle' : reconnectAttempts
                   (set_socket (Some (fire_once (signal_name e) sk)) m)
                 ≤ MAX_RECONNECT_ATTEMPTS) by done.
  revert Hle'. generalize (set_socket (Some (fire_once (signal_name e) sk)) m).
  generalize (attached (signal_name e) sk). intros hs.
  induction hs as [| h hs IH]; intros m0 Hle0; [done |].
  simpl. apply IH. by apply run_handler_le.
Qed.

Lemma set_connected_attempts (b : bool) (m : manager) :
  reconnectAttempts (set_connected b m) = reconnectAttempts m.
Proof. unfold set_connected. by destruct (socket m). Qed.

Lemma react_le (e : signal) (m m' : manager) :
  reconnectAttempts m ≤ MAX_RECONNECT_ATTEMPTS →
  react e m = Some m' →
  reconnectAttempts m' ≤ MAX_RECONNECT_ATTEMPTS.
Proof.
  intros Hle. destruct e as [| r r' | reason r |]; simpl.
  - destruct (socket m) as [sk |]; [| done].
    destruct (connected sk); [done |]. intros [= <-].
    apply dispatch_le. by rewrite set_connected_attempts.
  - destruct (socket m) as [sk |]; [| done].
    destruct (connected sk); [done |]. intros [= <-]. by apply dispatch_le.
  - destruct (socket m) as [sk |]; [| done].
    destruct (connected sk); [| done]. intros [= <-].
    apply dispatch_le. by rewrite set_connected_attempts.
  - destruct (reconnectTimer m) as [t |]; [| done].
    destruct (pending t); [| done]. intros [= <-].
    unfold timer_fired. simpl.
    destruct (connectionStatus m); try done;
      by rewrite initializeSocket_attempts.
Qed.

Lemma react_all_le (es : list signal) (m m' : manager) :
  reconnectAttempts m ≤ MAX_RECONNECT_ATTEMPTS →
  react_all es m = Some m' →
  reconnectAttempts m' ≤ MAX_RECONNECT_ATTEMPTS.
Proof.
  revert m. induction es as [| e es IH]; intros m Hle; simpl.
  - by intros [= <-].
  - destruct (react e m) as [m1 |] eqn:He; [| done].
    apply IH. by eapply react_le.
Qed.

(** Without a socket and without a timer nothing happens by itself. *)
Lemma quiescent (m : manager) (e : signal) :
  socket m = None → reconnectTimer m = None → react e m = None.
Proof. intros Hs Ht. destruct e; simpl; by rewrite ?Hs, ?Ht. Qed.

(** C7 (as the code has it).  From a state whose counter is at most the
    maximum of 5: below the maximum, [attemptReconnect] raises the
    counter by one and sets the timer to the base interval times
    2^(n-1) for the new count n, leaving the socket alone; the counter
    never exceeds the maximum, along any history of signals; at the
    maximum the fallback probe runs again, and when a candidate answers
    (and a token is stored) the counter is reset and a new socket starts
    connecting to it, but when none answers the manager drops the socket
    and the timer and no further attempt occurs by itself. *)
Theorem C7_backoff_doubles_then_probes_once
    (reach : string → bool) (m : manager) :
  reconnectAttempts m ≤ MAX_RECONNECT_ATTEMPTS →
  reconnectAttempts (attemptReconnect reach m) ≤ MAX_RECONNECT_ATTEMPTS
  ∧ (reconnectAttempts m < MAX_RECONNECT_ATTEMPTS →
     reconnectAttempts (attemptReconnect reach m) = S (reconnectAttempts m)
     ∧ reconnectTimer (attemptReconnect reach m)
       = Some (mkTimeout
                 (RECONNECT_INTERVAL
                  * 2 ^ (Z.of_nat
                           (reconnectAttempts (attemptReconnect reach m)) - 1))
                 true)
     ∧ socket (attemptReconnect reach m) = socket m)
  ∧ (reconnectAttempts m = MAX_RECONNECT_ATTEMPTS →
     ∀ u, is_Some (token m) →
       find (fun u => negb (bool_decide (u = SOCKET_BASE_URL m)) && reach u)
            FALLBACK_URLS = Some u →
       reconnectAttempts (attemptReconnect reach m) = 0
       ∧ connectionStatus (attemptReconnect reach m) = CONNECTING
       ∧ SOCKET_BASE_URL (attemptReconnect reach m) = u
       ∧ ∃ sk, socket (attemptReconnect reach m) = Some sk
               ∧ url sk = u ∧ connected sk = false)
  ∧ (reconnectAttempts m = MAX_RECONNECT_ATTEMPTS →
     (∀ u, u ∈ FALLBACK_URLS → u = SOCKET_BASE_URL m ∨ reach u = false) →
     socket (attemptReconnect reach m) = None
     ∧ reconnectTimer (attemptReconnect reach m) = None
     ∧ connectionStatus (attemptReconnect reach m) = DISCONNECTED
     ∧ reconnectAttempts (attemptReconnect reach m) = MAX_RECONNECT_ATTEMPTS
     ∧ ∀ e, react e (attemptReconnect reach m) = None)
  ∧ (∀ es m', react_all es m = Some m' →
              reconnectAttempts m' ≤ MAX_RECONNECT_ATTEMPTS).
Proof.
  intros Hle. split; [by apply attemptReconnect_le |].
  split; [| split; [| split]].
  - intros Hlt. unfold attemptReconnect.
    destruct (MAX_RECONNECT_ATTEMPTS <=? reconnectAttempts m)%nat eqn:Hcap;
      [apply Nat.leb_le in Hcap; lia |].
    done.
  - intros Hcap u [tok Htok] Hfind. unfold attemptReconnect.
    rewrite Hcap. simpl. unfold tryFallbackUrls. rewrite Hfind.
    unfold initializeSocket. simpl. rewrite Htok.
    destruct (socket m); simpl; repeat split; by eexists.
  - intros Hcap Hnone.
    assert (Hfind : find (fun u => negb (bool_decide (u = SOCKET_BASE_URL m))
                                   && reach u) FALLBACK_URLS = None).
    { apply find_none_elem. intros u Hu.
      destruct (Hnone u Hu) as [-> | ->];
        [by rewrite bool_decide_eq_true_2 | by rewrite andb_false_r]. }
    assert (Hrun : attemptReconnect reach m
                   = cleanupSocket (set_status ERROR m)).
    { unfold attemptReconnect. rewrite Hcap. simpl.
      unfold tryFallbackUrls. by rewrite Hfind. }
    rewrite Hrun. repeat split; try done.
    intros e. by apply quiescent.
  - intros es m'. by apply react_all_le.
Qed.

End Backoff.

(** C7 as stated fails.  With a stored token and a network on which
    nothing answers, five rounds of handshake error and timer bring the
    counter to 5; the next handshake error runs the probe once more,
    the probe fails, and the manager is left with no socket and no
    timer: no signal can occur any more, so no connection attempt
    follows unless the application calls the manager again. *)
Lemma C7_counterexample :
  ∃ m, @Client.react_all dev_expo all_attempts_fail started = Some m
       ∧ Client.socket m = None
       ∧ Client.reconnectTimer m = None
       ∧ Client.reconnectAttempts m = 5
       ∧ ∀ e, @Client.react dev_expo e m = None.
Proof.
  eexists. split; [by vm_compute |].
  repeat split. by intros [].
Qed.

(** The timer of the third attempt is four seconds. *)
Lemma C7_witness :
  Client.reconnectTimer
    (@Client.attemptReconnect dev_expo unreachable
       (Client.set_attempts 2 started))
  = Some (Client.mkTimeout 4000 true).
Proof.
  pose proof (@C7_backoff_doubles_then_probes_once dev_expo unreachable
                (Client.set_attempts 2 started)) as Hthm.
  simpl in Hthm.
  destruct Hthm as (_ & Hbelow & _); [unfold Client.MAX_RECONNECT_ATTEMPTS; lia |].
  destruct Hbelow as (_ & Htimer & _);
    [unfold Client.MAX_RECONNECT_ATTEMPTS; lia |].
  exact Htimer.
Defined.

(* ===================================================================== *)
(** * The client socket manager: listeners across reconnection *)
(* ===================================================================== *)

Section Listeners.
Import Client.
Context `{Expo}.

Lemma attached_off_same (ev : string) (sk : Socket) :
  attached ev (off ev sk) = [].
Proof.
  unfold attached, off. simpl.
  induction (listeners sk) as [| [e h] l IH]; [done |].
  rewrite filter_cons. simpl. destruct (decide (e ≠ ev)) as [Hne | Heq].
  - rewrite filter_cons. simpl. by destruct (decide (e = ev)).
  - done.
Qed.

Lemma attached_off_nil (ev ev' : string) (sk : Socket) :
  attached ev sk = [] → attached ev (off ev' sk) = [].
Proof.
  unfold attached, off. simpl.
  induction (listeners sk) as [| [e h] l IH]; [done |].
  rewrite !filter_cons. simpl.
  destruct (decide (e = ev)) as [-> | Hne]; [done |].
  intros Hnil. destruct (decide (e ≠ ev')); [| by apply IH].
  rewrite filter_cons. simpl. destruct (decide (e = ev)); [done |].
  by apply IH.
Qed.

Lemma attached_foldl_off_nil (ev : string) (ls : list SocketEventListener)
    (sk : Socket) :
  attached ev sk = [] →
  attached ev (foldl (fun s l => off (l_event l) s) sk ls) = [].
Proof.
  revert sk. induction ls as [| l ls IH]; intros sk Hnil; [done |].
  simpl. apply IH. by apply attached_off_nil.
Qed.

(** After the first pass of [reapplyEventListeners] no listener is left
    under the event of any stored listener. *)
Lemma attached_foldl_off (l : SocketEventListener)
    (ls : list SocketEventListener) (sk : Socket) :
  l ∈ ls →
  attached (l_event l) (foldl (fun s l => off (l_event l) s) sk ls) = [].
Proof.
  revert sk. induction ls as [| x ls IH]; intros sk Hin.
  - by apply not_elem_of_nil in Hin.
  - simpl. apply elem_of_cons in Hin as [-> | Hin].
    + apply attached_foldl_off_nil, attached_off_same.
    + by apply IH.
Qed.

(** The second pass appends the stored callbacks in order. *)
Lemma attached_foldl_on (ev : string) (ls : list SocketEventListener)
    (sk : Socket) :
  attached ev
    (foldl (fun s l => on (l_event l) (Callback (l_callback l)) s) sk ls)
  = attached ev sk ++ registered ev ls.
Proof.
  revert sk. induction ls as [| l ls IH]; intros sk.
  - unfold registered. simpl. by rewrite app_nil_r.
  - simpl. rewrite IH. unfold attached at 1, on, registered. simpl.
    rewrite filter_app, fmap_app, <- app_assoc. f_equal.
    rewrite !filter_cons, filter_nil. simpl.
    by destruct (decide (l_event l = ev)).
Qed.

Lemma foldl_off_connected (ls : list SocketEventListener) (sk : Socket) :
  connected (foldl (fun s l => off (l_event l) s) sk ls) = connected sk.
Proof.
  revert sk. induction ls as [| x ls IH]; intros sk; [done |]. simpl.
  by rewrite IH.
Qed.

Lemma foldl_on_connected (ls : list SocketEventListener) (sk : Socket) :
  connected
    (foldl (fun s l => on (l_event l) (Callback (l_callback l)) s) sk ls)
  = connected sk.
Proof.
  revert sk. induction ls as [| x ls IH]; intros sk; [done |]. simpl.
  by rewrite IH.
Qed.

(** [reapplyEventListeners] on a socket: under the event of each stored
    listener the socket carries exactly the stored callbacks of that
    event, each once, in the order they were added. *)
Lemma reapply_attached (m : manager) (sk : Socket) :
  socket m = Some sk →
  ∃ sk', socket (reapplyEventListeners m) = Some sk'
    ∧ connected sk' = connected sk
    ∧ ∀ l, l ∈ socketEventListeners m →
           attached (l_event l) sk'
           = registered (l_event l) (socketEventListeners m).
Proof.
  intros Hsk. unfold reapplyEventListeners. rewrite Hsk. simpl.
  eexists. split; [reflexivity |]. split.
  - by rewrite foldl_on_connected, foldl_off_connected.
  - intros l Hl. rewrite attached_foldl_on.
    by rewrite (attached_foldl_off l _ sk Hl).
Qed.

Lemma on_connect_reapplied (m : manager) (sk : Socket) :
  socket m = Some sk → connected sk = true →
  reapplied (socketEventListeners m) (on_connect m).
Proof.
  intros Hsk Hc. unfold on_connect.
  set (m1 := set_timer None (set_attempts 0 (set_status CONNECTED m))).
  destruct (reapply_attached m1 sk Hsk) as (sk' & Hsk' & Hc' & Hatt).
  assert (Hfields : ∀ m0 : manager,
            reconnectAttempts (reapplyEventListeners m0) = reconnectAttempts m0
            ∧ reconnectTimer (reapplyEventListeners m0) = reconnectTimer m0
            ∧ connectionStatus (reapplyEventListeners m0)
              = connectionStatus m0
            ∧ socketEventListeners (reapplyEventListeners m0)
              = socketEventListeners m0).
  { intros m0. unfold reapplyEventListeners. by destruct (socket m0). }
  unfold reapplied. destruct (Hfields m1) as (-> & -> & -> & ->).
  repeat split. exists sk'. rewrite Hc', Hc. by repeat split.
Qed.

Lemma dispatch_connect_reapplied (hs : list handler) (m : manager) :
  (∃ sk, socket m = Some sk ∧ connected sk = true) →
  reapplied (socketEventListeners m) m ∨ Internal ∈ hs →
  reapplied (socketEventListeners m)
    (foldl (fun m h => run_handler Connect h m) m hs).
Proof.
  revert m. induction hs as [| h hs IH]; intros m Hsk Hor.
  - destruct Hor as [Hdone | Hin]; [done |]. by apply not_elem_of_nil in Hin.
  - simpl. destruct h as [| cb |]; simpl.
    + destruct Hsk as (sk & Hsk & Hc).
      pose proof (on_connect_reapplied m sk Hsk Hc) as Hre.
      destruct Hre as (Ha & Ht & Hst & HR & sk' & Hsk' & Hc' & Hatt).
      rewrite <- HR. apply IH; [by eauto |]. left.
      rewrite HR. repeat split; try done. by exists sk'.
    + apply IH; [done |]. destruct Hor as [Hdone | Hin]; [by left |].
      apply elem_of_cons in Hin as [Heq | Hin]; [done | by right].
    + apply IH; [done |]. destruct Hor as [Hdone | Hin]; [by left |].
      apply elem_of_cons in Hin as [Heq | Hin]; [done | by right].
Qed.

(** When the handshake of a socket that carries the manager's connect
    closure succeeds, the counter is reset to 0, the status is
    connected, the registry is unchanged, and under the event of every
    listener in the registry the live socket carries exactly the
    registry's callbacks of that event, in order. *)
Lemma connect_reattaches (m : manager) (sk : Socket) :
  socket m = Some sk → connected sk = false →
  ("connect", Internal) ∈ listeners sk →
  ∃ m' sk',
    react Connect m = Some m'
    ∧ reconnectAttempts m' = 0
    ∧ connectionStatus m' = CONNECTED
    ∧ socketEventListeners m' = socketEventListeners m
    ∧ socket m' = Some sk' ∧ connected sk' = true
    ∧ ∀ l, l ∈ socketEventListeners m →
           attached (l_event l) sk'
           = registered (l_event l) (socketEventListeners m).
Proof.
  intros Hsk Hc Hin.
  set (m1 := set_connected true m).
  set (sk1 := mkSocket (url sk) true (listeners sk)).
  set (m2 := set_socket (Some (fire_once "connect" sk1)) m1).
  assert (Hsk1 : socket m1 = Some sk1).
  { unfold m1, set_connected. by rewrite Hsk. }
  assert (HR2 : socketEventListeners m2 = socketEventListeners m).
  { unfold m2, m1, set_connected. by rewrite Hsk. }
  assert (Hint : Internal ∈ attached "connect" sk1).
  { unfold attached. simpl. apply list_elem_of_fmap.
    exists ("connect", Internal). split; [done |].
    by apply list_elem_of_filter. }
  pose proof (dispatch_connect_reapplied (attached "connect" sk1) m2
                (ex_intro _ _ (conj eq_refl eq_refl)) (or_intror Hint))
    as Hre.
  rewrite HR2 in Hre.
  destruct Hre as (Ha & _ & Hst & HR & sk' & Hsk' & Hc' & Hatt).
  exists (dispatch Connect m1), sk'.
  split.
  { simpl. by rewrite Hsk, Hc. }
  unfold dispatch. rewrite Hsk1. by repeat split.
Qed.

(** A listener is in the registry from the moment it is added, with or
    without a socket. *)
Lemma addSocketListener_registered (ev : string) (cb : nat) (id : string)
    (m : manager) :
  mkListener ev cb id ∈ socketEventListeners (addSocketListener ev cb id m).
Proof.
  unfold addSocketListener. simpl.
  destruct (socket m); simpl; apply elem_of_app; right; apply list_elem_of_here.
Qed.

(** A socket made by [initializeSocket] carries the connect closure. *)
Lemma initializeSocket_wired (m : manager) :
  is_Some (token m) →
  ∃ sk, socket (initializeSocket m) = Some sk ∧ connected sk = false
        ∧ ("connect", Internal) ∈ listeners sk.
Proof.
  intros [tok Htok]. unfold initializeSocket. rewrite Htok.
  destruct (socket m); simpl; eexists; repeat split;
    apply list_elem_of_here.
Qed.

(** ** The manager's closures stay attached *)

Lemma lifecycle_app_ne (ev ev' : string) :
  lifecycle_event ev = true → lifecycle_event ev' = false → ev ≠ ev'.
Proof. intros H1 H2 ->. congruence. Qed.

Lemma wired_same (m m' : manager) :
  socket m' = socket m → socketEventListeners m' = socketEventListeners m →
  wired m → wired m'.
Proof. intros Hs HR [H1 H2]. split; rewrite ?HR, ?Hs; done. Qed.

Lemma wired_no_socket (m m' : manager) :
  socket m' = None → socketEventListeners m' = socketEventListeners m →
  wired m → wired m'.
Proof.
  intros Hs HR [H1 H2]. split; [by rewrite HR |].
  intros sk Hsk. congruence.
Qed.

Lemma wired_initializeSocket (m : manager) :
  wired m → wired (initializeSocket m).
Proof.
  intros Hw. unfold initializeSocket. destruct (token m); [| done].
  destruct Hw as [H1 H2]. split.
  - by destruct (socket m).
  - intros sk Hsk ev Hev.
    assert (Hl : listeners sk = [("connect", Internal);
                                 ("disconnect", Internal);
                                 ("connect_error", Internal)])
      by (destruct (socket m); simpl in Hsk; by inversion Hsk).
    rewrite Hl. apply bool_decide_eq_true in Hev.
    repeat (apply elem_of_cons in Hev as [-> | Hev]);
      [.. | by apply not_elem_of_nil in Hev];
      first [ apply list_elem_of_here
            | apply list_elem_of_further, list_elem_of_here
            | apply list_elem_of_further, list_elem_of_further,
                list_elem_of_here ].
Qed.

Lemma wired_tryFallbackUrls reach (m : manager) :
  wired m → wired (tryFallbackUrls reach m).2.
Proof. unfold tryFallbackUrls. by destruct (find _ _). Qed.

Lemma wired_attemptReconnect reach (m : manager) :
  wired m → wired (attemptReconnect reach m).
Proof.
  intros Hw. unfold attemptReconnect.
  destruct (MAX_RECONNECT_ATTEMPTS <=? reconnectAttempts m)%nat; [| done].
  pose proof (wired_tryFallbackUrls reach m Hw) as Hw1.
  destruct (tryFallbackUrls reach m) as [[] m1]; simpl in Hw1.
  - by apply wired_initializeSocket.
  - by apply (wired_no_socket m1).
Qed.

Lemma foldl_off_keeps (x : string * handler) (ls : list SocketEventListener)
    (sk : Socket) :
  (∀ l, l ∈ ls → l_event l ≠ x.1) → x ∈ listeners sk →
  x ∈ listeners (foldl (fun s l => off (l_event l) s) sk ls).
Proof.
  revert sk. induction ls as [| l ls IH]; intros sk Hne Hin; [done |].
  simpl. apply IH.
  - intros l' Hl'. apply Hne. by apply list_elem_of_further.
  - unfold off. simpl. apply list_elem_of_filter. split; [| done].
    intros Heq. by apply (Hne l (list_elem_of_here _ _)).
Qed.

Lemma foldl_on_keeps (x : string * handler) (ls : list SocketEventListener)
    (sk : Socket) :
  x ∈ listeners sk →
  x ∈ listeners
        (foldl (fun s l => on (l_event l) (Callback (l_callback l)) s) sk ls).
Proof.
  revert sk. induction ls as [| l ls IH]; intros sk Hin; [done |].
  simpl. apply IH. unfold on. simpl. apply elem_of_app. by left.
Qed.

Lemma wired_reapply (m : manager) :
  wired m → wired (reapplyEventListeners m).
Proof.
  intros Hw. pose proof Hw as [H1 H2]. unfold reapplyEventListeners.
  destruct (socket m) as [sk |] eqn:Hsk; [| exact Hw].
  split; [done |]. intros sk' [= <-] ev Hev.
  apply foldl_on_keeps, foldl_off_keeps; [| by apply H2].
  intros l Hl. simpl. apply not_eq_sym.
  by apply (lifecycle_app_ne ev (l_event l) Hev), H1.
Qed.

Lemma wired_on_connect (m : manager) : wired m → wired (on_connect m).
Proof. intros Hw. unfold on_connect. by apply wired_reapply. Qed.

Lemma wired_run_handler (e : signal) (h : handler) (m : manager) :
  wired m → wired (run_handler e h m).
Proof.
  intros Hw. destruct h as [| cb |], e as [| r r' | reason r |]; simpl;
    try done.
  - by apply wired_on_connect.
  - unfold on_connect_error.
    pose proof (wired_tryFallbackUrls r (set_status ERROR m) Hw) as Hw1.
    destruct (tryFallbackUrls r (set_status ERROR m)) as [[] m1];
      simpl in Hw1.
    + by apply wired_initializeSocket.
    + by apply wired_attemptReconnect.
  - unfold on_disconnect. destruct (_ || _); [| done].
    by apply wired_attemptReconnect.
Qed.

Lemma wired_dispatch (e : signal) (m : manager) :
  wired m → wired (dispatch e m).
Proof.
  unfold dispatch. destruct (socket m) as [sk |] eqn:Hsk; [| done].
  intros Hw.
  assert (Hw' : wired (set_socket (Some (fire_once (signal_name e) sk)) m)).
  { destruct Hw as [H1 H2]. split; [done |].
    intros sk' [= <-] ev Hev. simpl. apply list_elem_of_filter.
    split; [done | by apply (H2 sk)]. }
  revert Hw'. generalize (set_socket (Some (fire_once (signal_name e) sk)) m).
  generalize (attached (signal_name e) sk). intros hs.
  induction hs as [| h hs IH]; intros m0 Hw0; [done |].
  simpl. apply IH. by apply wired_run_handler.
Qed.

Lemma wired_set_connected (b : bool) (m : manager) :
  wired m → wired (set_connected b m).
Proof.
  intros Hw. pose proof Hw as [H1 H2]. unfold set_connected.
  destruct (socket m) as [sk |] eqn:Hsk; [| exact Hw].
  split; [done |]. intros sk' [= <-] ev Hev. by apply (H2 sk).
Qed.

Lemma wired_react (e : signal) (m m' : manager) :
  wired m → react e m = Some m' → wired m'.
Proof.
  intros Hw. destruct e as [| r r' | reason r |]; simpl.
  - destruct (socket m) as [sk |]; [| done].
    destruct (connected sk); [done |]. intros [= <-].
    by apply wired_dispatch, wired_set_connected.
  - destruct (socket m) as [sk |]; [| done].
    destruct (connected sk); [done |]. intros [= <-].
    by apply wired_dispatch.
  - destruct (socket m) as [sk |]; [| done].
    destruct (connected sk); [| done]. intros [= <-].
    by apply wired_dispatch, wired_set_connected.
  - destruct (reconnectTimer m) as [t |]; [| done].
    destruct (pending t); [| done]. intros [= <-].
    unfold timer_fired. simpl.
    destruct (connectionStatus m); try done;
      by apply wired_initializeSocket.
Qed.

Lemma remove_first_keeps {A} `{EqDecision A} (x y : A) (l : list A) :
  x ≠ y → x ∈ l → x ∈ remove_first y l.
Proof.
  intros Hne. induction l as [| z l IH]; [done |]. simpl.
  intros Hin. destruct (decide (z = y)) as [-> | Hz].
  - apply elem_of_cons in Hin as [? | ?]; [congruence | done].
  - apply elem_of_cons in Hin as [-> | Hin];
      [apply list_elem_of_here | by apply list_elem_of_further, IH].
Qed.

Lemma splice_first_subset {A} (p : A → bool) (l : list A) (x : A) :
  x ∈ splice_first p l → x ∈ l.
Proof.
  induction l as [| z l IH]; [done |]. simpl. destruct (p z).
  - by apply list_elem_of_further.
  - intros Hin. apply elem_of_cons in Hin as [-> | Hin];
      [apply list_elem_of_here | by apply list_elem_of_further, IH].
Qed.

Lemma wired_perform (c : call) (m m' : manager) :
  application_call c → wired m → perform c m = Some m' → wired m'.
Proof.
  intros Happ Hw. destruct c as [| ev cb id | id | ev cb | | | e]; simpl.
  - intros [= <-]. by apply wired_initializeSocket.
  - intros [= <-]. destruct Hw as [H1 H2]. simpl in Happ.
    unfold addSocketListener. simpl.
    destruct (socket m) as [sk |] eqn:Hsk; split; simpl.
    + intros l Hl. apply elem_of_app in Hl as [Hl | Hl]; [by apply H1 |].
      apply list_elem_of_singleton in Hl. by subst l.
    + intros sk' [= <-] ev' Hev'. simpl. apply elem_of_app. left.
      by apply (H2 sk).
    + intros l Hl. apply elem_of_app in Hl as [Hl | Hl]; [by apply H1 |].
      apply list_elem_of_singleton in Hl. by subst l.
    + intros sk'. rewrite Hsk. done.
  - intros [= <-]. destruct Hw as [H1 H2]. unfold removeSocketListenerById.
    destruct (find _ _) as [l |]; [| done]. simpl.
    destruct (socket m) as [sk |] eqn:Hsk; split; simpl.
    + intros l' Hl'. by apply H1, (splice_first_subset _ _ _ Hl').
    + intros sk' [= <-] ev' Hev'. simpl.
      apply remove_first_keeps; [done | by apply (H2 sk)].
    + intros l' Hl'. by apply H1, (splice_first_subset _ _ _ Hl').
    + intros sk'. rewrite Hsk. done.
  - intros [= <-]. pose proof Hw as [H1 H2]. simpl in Happ.
    unfold removeSocketListener.
    destruct (socket m) as [sk |] eqn:Hsk; [| exact Hw].
    destruct (bool_decide (ev = "")); [exact Hw |].
    destruct cb as [cb |]; split; simpl.
    + intros l' Hl'. by apply H1, (splice_first_subset _ _ _ Hl').
    + intros sk' [= <-] ev' Hev'. simpl.
      apply remove_first_keeps; [done | by apply (H2 sk)].
    + intros l' Hl'. apply list_elem_of_filter in Hl' as [_ Hl'].
      by apply H1.
    + intros sk' [= <-] ev' Hev'. simpl. apply list_elem_of_filter.
      split; [| by apply (H2 sk)]. simpl.
      by apply (lifecycle_app_ne ev' ev).
  - intros [= <-]. by apply (wired_no_socket m).
  - intros [= <-]. pose proof Hw as [H1 H2]. unfold getSocket.
    destruct (socket m) as [sk |] eqn:Hsk;
      [| by apply wired_initializeSocket].
    destruct (connected sk); [exact Hw |].
    split; [done |]. intros sk' [= <-] ev Hev. simpl.
    rewrite <- app_assoc. apply elem_of_app. left. by apply (H2 sk).
  - by apply wired_react.
Qed.

Lemma wired_perform_all (cs : list call) (m m' : manager) :
  Forall application_call cs → wired m → perform_all cs m = Some m' →
  wired m'.
Proof.
  revert m. induction cs as [| c cs IH]; intros m Hall Hw; simpl.
  - by intros [= <-].
  - apply Forall_cons in Hall as [Hc Hall].
    destruct (perform c m) as [m1 |] eqn:Hp; [| done].
    apply IH; [done |]. by apply (wired_perform c m).
Qed.

Lemma wired_initial (base : string) (tok : option string) :
  wired (initial base tok).
Proof. split; [by intros l Hl; apply not_elem_of_nil in Hl | done]. Qed.

(** In every run of the manager in which the application adds and
    removes listeners of its own events, every handshake success resets
    the attempt counter to 0 and leaves the registry as it is, and
    after it the live socket carries, under the event of each
    registered listener, exactly the registry's callbacks of that
    event, in order. *)
Theorem application_listeners_reattached_at_handshake
    (base : string) (tok : option string) (cs : list call)
    (m m' : manager) :
  Forall application_call cs →
  perform_all cs (initial base tok) = Some m →
  react Connect m = Some m' →
  reconnectAttempts m' = 0
  ∧ connectionStatus m' = CONNECTED
  ∧ socketEventListeners m' = socketEventListeners m
  ∧ ∃ sk', socket m' = Some sk' ∧ connected sk' = true
           ∧ ∀ l, l ∈ socketEventListeners m →
                  attached (l_event l) sk'
                  = registered (l_event l) (socketEventListeners m).
Proof.
  intros Hall Hrun Hreact.
  pose proof (wired_perform_all cs _ m Hall (wired_initial base tok) Hrun)
    as [_ Hw].
  destruct (socket m) as [sk |] eqn:Hsk;
    [| by simpl in Hreact; rewrite Hsk in Hreact].
  destruct (connected sk) eqn:Hc;
    [by simpl in Hreact; rewrite Hsk, Hc in Hreact |].
  destruct (connect_reattaches m sk Hsk Hc (Hw sk eq_refl "connect" eq_refl))
    as (m1 & sk' & Hreact1 & Ha & Hst & HR & Hsk' & Hc' & Hatt).
  rewrite Hreact in Hreact1. inversion Hreact1; subst m1.
  repeat split; try done. by exists sk'.
Qed.

End Listeners.

(* ===================================================================== *)
(** * The properties at concrete inputs *)
(* ===================================================================== *)

(** C2 at an attachment-only send from alice to bob. *)
Lemma C2_witness :
  @isValid hex_oids alice = true
  ∧ ∃ m,
      messages (store (@sendMessage hex_oids alice 100 attachment_only
                         server0).1)
      = messages (store server0) ++ [m]
      ∧ Message.sender m = alice
      ∧ Some (Message.receiver m) = sm_receiver attachment_only
      ∧ Message.content m = default [] (sm_content attachment_only)
      ∧ Message.attachments m = default [] (sm_attachments attachment_only)
      ∧ Emit ToSender "messageSaved" (PMessage m)
        ∈ (@sendMessage hex_oids alice 100 attachment_only server0).2.
Proof.
  split; [reflexivity |].
  exact (@C2_sendMessage_validates_then_persists hex_oids alice 100
           attachment_only server0 eq_refl).
Defined.


(** C6 at a send to a well-formed identifier that names no
    conversation: the not-found error and nothing written. *)
Lemma C6_witness :
  (@newMessage hex_oids alice 100 send_to_nowhere server_after_hello).1
  = server_after_hello
  ∧ (@newMessage hex_oids alice 100 send_to_nowhere server_after_hello).2
    = [error "Conversation not found" None].
Proof.
  assert (Hno : @names_no_conversation hex_oids send_to_nowhere
                  (store server_after_hello)).
  { intros cid c [= <-] _ Hc. vm_compute in Hc.
    apply list_elem_of_singleton in Hc. subst c.
    intros Heq. vm_compute in Heq. discriminate Heq. }
  exact (@C6_unknown_conversation_writes_nothing hex_oids alice 100
           send_to_nowhere server_after_hello Hno).
Defined.

(** C6 as stated fails.  A conversation-dialect send whose
    [conversationId] is not an identifier names no stored conversation,
    and nothing is written, but the error the sender gets is not the
    not-found error: the lookup throws the cast error and the [catch]
    block reports a failed send. *)
Lemma C6_counterexample :
  @names_no_conversation hex_oids send_to_malformed (store server_after_hello)
  ∧ (@newMessage hex_oids alice 100 send_to_malformed server_after_hello).1
    = server_after_hello
  ∧ (@newMessage hex_oids alice 100 send_to_malformed server_after_hello).2
    = [error "Failed to send message" (Some (CastError "_id"))]
  ∧ error "Conversation not found" None
    ∉ (@newMessage hex_oids alice 100 send_to_malformed server_after_hello).2.
Proof.
  split; [| split; [| split]].
  - intros cid c [= <-] Hv. vm_compute in Hv. discriminate Hv.
  - reflexivity.
  - reflexivity.
  - intros Hin. vm_compute in Hin.
    apply list_elem_of_singleton in Hin. discriminate Hin.
Qed.

(** C10 at bob's first message. *)
Lemma C10_witness :
  messages store_after_hello !! 0 = Some hello_message
  ∧ (∃ m', messages (@put_mark_read hex_oids 200 (Some [oid_of_nat 0])
                       store_after_hello).1 !! 0 = Some m'
           ∧ Message.read m' = true ∧ Message.readAt m' = None)
  ∧ (∃ m', messages (store (@markRead hex_oids 200 (Some [oid_of_nat 0])
                              server_after_hello).1) !! 0 = Some m'
           ∧ Message.read m' = true ∧ Message.readAt m' = Some 200%Z).
Proof.
  assert (Hm : messages store_after_hello !! 0 = Some hello_message)
    by (by vm_compute).
  split; [exact Hm |].
  destruct (@C10_http_mark_read_keeps_readAt hex_oids 200 [oid_of_nat 0]
              server_after_hello 0 hello_message)
    as [(m1 & H1 & _ & Hr1 & Ha1) (m2 & H2 & _ & Hr2 & Ha2)];
    [discriminate | reflexivity | exact Hm
    | vm_compute; apply list_elem_of_here | ].
  split; eexists; eauto.
Defined.

(** C5 at the store bob's first message leaves: alice replies in the
    conversation dialect, and alice sends a direct message. *)
Lemma C5_witness :
  (∃ c',
     find (fun x => bool_decide (Conversation._id x = oid_of_nat 1))
          (conversations
             (store (@newMessage hex_oids alice 200 reply_in_conversation
                       server_after_hello).1)) = Some c'
     ∧ Conversation.unreadCount c' = 1%Z)
  ∧ (∀ x', conversations
             (store (@sendMessage hex_oids alice 200 text_to_bob
                       server_after_hello).1) !! 0 = Some x' →
           Conversation.unreadCount x' = 0%Z).
Proof.
  destruct (@C5_unread_count_by_dialect hex_oids alice 200 server_after_hello
              eq_refl) as [Hconv Hsend].
  split.
  - destruct (Hconv reply_in_conversation (oid_of_nat 1) (lit "hi back")
                hello_conversation bob)
      as (c' & Hfind & Hunread & _);
      [reflexivity | discriminate | reflexivity | reflexivity | reflexivity
      | by vm_compute | reflexivity | ].
    exists c'. split; [exact Hfind | exact Hunread].
  - destruct (Hsend text_to_bob bob eq_refl eq_refl) as [Hdirect _].
    intros x' Hx'. specialize (Hdirect 0 x' Hx').
    change (conversations (store server_after_hello) !! 0)
      with (Some hello_conversation) in Hdirect.
    by destruct Hdirect as [-> _].
Defined.

(** C3 at alice fetching the conversation of bob's unread message. *)
Lemma C3_witness :
  hello_conversation ∈ conversations store_after_hello
  ∧ (∀ m', m' ∈ messages (@get_messages hex_oids alice 300 (oid_of_nat 1)
                            store_after_hello).1 →
           Message.conversation m' = Some (oid_of_nat 1) →
           Message.sender m' ≠ alice → Message.read m' = true)
  ∧ ∃ c', find (fun x => bool_decide (Conversation._id x = oid_of_nat 1))
               (conversations
                  (@get_messages hex_oids alice 300 (oid_of_nat 1)
                     store_after_hello).1) = Some c'
          ∧ Conversation.unreadCount c' = 0%Z.
Proof.
  assert (Hc : hello_conversation ∈ conversations store_after_hello)
    by (vm_compute; apply list_elem_of_here).
  split; [exact Hc |].
  destruct (@C3_fetch_marks_unread_messages hex_oids alice 300 (oid_of_nat 1)
              store_after_hello hello_conversation)
    as (_ & Hall & c' & Hfind & Hzero & _);
    [reflexivity | reflexivity | exact Hc | reflexivity
    | vm_compute; apply list_elem_of_further, list_elem_of_here | ].
  split; [exact Hall |]. exists c'. by split.
Defined.

(** A manager with one listener added before its socket existed and
    one after: at the handshake both are attached once. *)
Lemma application_listeners_reattached_witness :
  Forall Client.application_call listener_calls
  ∧ @Client.perform_all dev_expo listener_calls
      (Client.initial "http://localhost:5000" (Some "token"))
    = Some two_listeners
  ∧ ∃ m' sk',
      @Client.react dev_expo Client.Connect two_listeners = Some m'
      ∧ Client.reconnectAttempts m' = 0
      ∧ Client.socket m' = Some sk'
      ∧ Client.attached "newMessage" sk' = [Client.Callback 1]
      ∧ Client.attached "receiveMessage" sk' = [Client.Callback 2].
Proof.
  assert (Hall : Forall Client.application_call listener_calls)
    by (repeat constructor).
  split; [exact Hall |]. split; [reflexivity |].
  destruct (@Client.react dev_expo Client.Connect two_listeners)
    as [m' |] eqn:Hreact; [| discriminate Hreact].
  destruct (@application_listeners_reattached_at_handshake dev_expo
              "http://localhost:5000" (Some "token") listener_calls
              two_listeners m' Hall eq_refl Hreact)
    as (Hzero & _ & _ & sk' & Hsk' & _ & Hatt).
  exists m', sk'. repeat split; try done.
  - apply (Hatt (Client.mkListener "newMessage" 1 "id1")).
    apply list_elem_of_here.
  - apply (Hatt (Client.mkListener "receiveMessage" 2 "id2")).
    apply list_elem_of_further, list_elem_of_here.
Defined.

(** The restriction to application events is needed.  A listener added
    under the connect event makes the first handshake remove the
    manager's own connect closure from the socket ([socket.off(event)]
    removes every listener of the event), so a later handshake of that
    socket is not seen by the manager. *)
Example lifecycle_listener_drops_closure :
  ∃ m sk, @Client.perform_all dev_expo connect_listener_calls
            (Client.initial "http://localhost:5000" (Some "token")) = Some m
          ∧ Client.socket m = Some sk
          ∧ Client.attached "connect" sk = [Client.Callback 9].
Proof. vm_compute. by eexists _, _. Qed.

(** C8 fails on the code.  The application adds a listener of the
    connect event with [addSocketListener] and never removes it.  At the
    first handshake the connect closure runs [reapplyEventListeners],
    whose [socket.off('connect')] takes the manager's own connect
    closure off the socket with the application's listener and puts
    back the application's listener only.  The connection then closes
    (the counter goes to 1 and the timer is set) and the handshake of
    the socket succeeds again: the socket is connected and the listener
    is registered, but no closure of the manager runs, so the counter is
    still 1 and the status still disconnected; when the timer fires,
    the manager discards the live socket and starts a new one. *)
Theorem C8_connect_listener_defeats_reset :
  ∃ m sk,
    @Client.perform_all dev_expo connect_listener_reconnects
      (Client.initial "http://localhost:5000" (Some "token")) = Some m
    ∧ Client.mkListener "connect" 9 "id9" ∈ Client.socketEventListeners m
    ∧ Client.socket m = Some sk ∧ Client.connected sk = true
    ∧ Client.attached "connect" sk = [Client.Callback 9]
    ∧ Client.reconnectAttempts m = 1
    ∧ Client.connectionStatus m = Client.DISCONNECTED
    ∧ Client.reconnectTimer m = Some (Client.mkTimeout 1000 true)
    ∧ ∃ m' sk',
        @Client.react dev_expo Client.TimerFired m = Some m'
        ∧ Client.socket m' = Some sk'
        ∧ Client.connected sk' = false
        ∧ Client.connectionStatus m' = Client.CONNECTING.
Proof.
  assert (Hrun : ∃ m, @Client.perform_all dev_expo connect_listener_reconnects
                        (Client.initial "http://localhost:5000" (Some "token"))
                      = Some m) by (vm_compute; by eexists).
  destruct Hrun as [m Hrun]. exists m.
  vm_compute in Hrun. injection Hrun as <-.
  eexists. split; [by vm_compute |].
  split; [apply list_elem_of_here |].
  do 6 (split; [by vm_compute |]).
  vm_compute. by eexists _, _.
Qed.

(* ===================================================================== *)
(** * Further properties: the gate *)
(* ===================================================================== *)

(** X1.  The gate admits a handshake exactly when the token it reads
    (the auth token, or the query token when the auth token is absent or
    empty) is non-empty and verifies, and then for the identity of that
    token: a present auth token that does not verify is not rescued by a
    valid query token. *)
Theorem gate_admits_exactly_verified_token
    `{TokenVerifier} (h : Handshake) (u : Decoded) :
  authenticate h = Accepted u
  ↔ ∃ tok, tok ≠ "" ∧ jwt_verify tok = inl u
           ∧ (auth_token h = Some tok
              ∨ (auth_token h = None ∨ auth_token h = Some "")
                ∧ query_token h = Some tok).
Proof.
  unfold authenticate, truthy. split.
  - destruct (auth_token h) as [a |] eqn:Ha.
    + destruct (bool_decide (a = "")) eqn:Hea.
      * apply bool_decide_eq_true in Hea. subst a.
        destruct (query_token h) as [q |]; [| done].
        destruct (bool_decide (q = "")) eqn:Heq; [done |].
        apply bool_decide_eq_false in Heq.
        destruct (jwt_verify q) as [d | e] eqn:Hv; [| done].
        intros [= <-]. exists q.
        split; [done |]. split; [done |]. right. split; [by right | done].
      * rewrite Hea. apply bool_decide_eq_false in Hea.
        destruct (jwt_verify a) as [d | e] eqn:Hv; [| done].
        intros [= <-]. exists a.
        split; [done |]. split; [done |]. by left.
    + destruct (query_token h) as [q |]; [| done].
      destruct (bool_decide (q = "")) eqn:Heq; [done |].
      apply bool_decide_eq_false in Heq.
      destruct (jwt_verify q) as [d | e] eqn:Hv; [| done].
      intros [= <-]. exists q.
      split; [done |]. split; [done |]. right. split; [by left | done].
  - intros (tok & Hne & Hv & [Ha | [[Ha | Ha] Hq]]).
    + rewrite Ha, (bool_decide_eq_false_2 _ Hne),
        (bool_decide_eq_false_2 _ Hne), Hv. done.
    + rewrite Ha, Hq, (bool_decide_eq_false_2 _ Hne), Hv. done.
    + rewrite Ha, Hq. simpl. rewrite (bool_decide_eq_false_2 _ Hne), Hv.
      done.
Qed.

(* ===================================================================== *)
(** * Further properties: lists of documents *)
(* ===================================================================== *)

Lemma find_ext {A} (p q : A → bool) (l : list A) :
  (∀ x, p x = q x) → find p l = find q l.
Proof.
  intros Hpq. induction l as [| x l IH]; [done |]. simpl.
  by rewrite Hpq, IH.
Qed.

Lemma update_first_ext {A} (p q : A → bool) (f : A → A) (l : list A) :
  (∀ x, p x = q x) → update_first p f l = update_first q f l.
Proof.
  intros Hpq. induction l as [| x l IH]; [done |]. simpl.
  by rewrite Hpq, IH.
Qed.

Lemma find_app_None {A} (p : A → bool) (l1 l2 : list A) :
  find p l1 = None → find p (l1 ++ l2) = find p l2.
Proof.
  induction l1 as [| x l1 IH]; [done |]. simpl.
  destruct (p x); [done | exact IH].
Qed.

Lemma find_app_Some {A} (p : A → bool) (l1 l2 : list A) (x : A) :
  find p l1 = Some x → find p (l1 ++ l2) = Some x.
Proof.
  induction l1 as [| y l1 IH]; [done |]. simpl.
  destruct (p y); [done | exact IH].
Qed.

Lemma update_first_app_None {A} (p : A → bool) (f : A → A) (l1 l2 : list A) :
  find p l1 = None →
  update_first p f (l1 ++ l2) = l1 ++ update_first p f l2.
Proof.
  induction l1 as [| x l1 IH]; [done |]. simpl.
  destruct (p x); [done |]. intros Hn. by rewrite IH.
Qed.

Lemma update_first_find_elem {A} (p : A → bool) (f : A → A) (l : list A)
    (x : A) :
  find p l = Some x → f x ∈ update_first p f l.
Proof.
  induction l as [| y l IH]; [done |]. simpl.
  destruct (p y) eqn:Hy.
  - intros [= ->]. apply list_elem_of_here.
  - intros Hf. apply list_elem_of_further. by apply IH.
Qed.

Lemma find_Some_elem {A} (p : A → bool) (l : list A) (x : A) :
  find p l = Some x → x ∈ l ∧ p x = true.
Proof.
  intros Hf. apply find_some in Hf as [Hin Hp].
  by apply list_elem_of_In in Hin.
Qed.

Lemma filter_find_length {A} (p : A → bool) (l : list A) (x : A) :
  find p l = Some x → 1 ≤ length (filter (fun y => p y = true) l).
Proof.
  induction l as [| y l IH]; [done |]. simpl.
  destruct (p y) eqn:Hy.
  - intros _. rewrite filter_cons. destruct (decide (p y = true)); [| done].
    simpl. lia.
  - intros Hf. rewrite filter_cons.
    destruct (decide (p y = true)); [congruence |]. by apply IH.
Qed.

Lemma delete_first_app_None {A} (p : A → bool) (l : list A) (x : A) :
  find p l = None → p x = true → delete_first p (l ++ [x]) = l.
Proof.
  induction l as [| y l IH]; simpl.
  - intros _ ->. done.
  - destruct (p y); [done |]. intros Hn Hx. by rewrite IH.
Qed.

Lemma delete_first_None {A} (p : A → bool) (l : list A) :
  find p l = None → delete_first p l = l.
Proof.
  induction l as [| y l IH]; [done |]. simpl.
  destruct (p y); [done |]. intros Hn. by rewrite IH.
Qed.

(** ** The stable sort by creation time *)

Lemma insert_by_createdAt_perm (m : Message.t) (l : list Message.t) :
  insert_by_createdAt m l ≡ₚ m :: l.
Proof.
  induction l as [| x l IH]; [done |]. simpl.
  destruct (Message.createdAt m <? Message.createdAt x)%Z; [done |].
  rewrite IH. apply Permutation_swap.
Qed.

Lemma insert_by_createdAt_sorted (m : Message.t) (l : list Message.t) :
  StronglySorted created_before l →
  StronglySorted created_before (insert_by_createdAt m l).
Proof.
  induction 1 as [| x l Hs IH Hall]; simpl.
  - repeat constructor.
  - destruct (Message.createdAt m <? Message.createdAt x)%Z eqn:Hlt.
    + apply Z.ltb_lt in Hlt. constructor; [by constructor |].
      constructor; [unfold created_before; lia |].
      eapply Forall_impl; [exact Hall |].
      intros y Hy. unfold created_before in *. lia.
    + apply Z.ltb_ge in Hlt. constructor; [exact IH |].
      rewrite insert_by_createdAt_perm. by constructor.
Qed.

Lemma sort_by_createdAt_perm (l : list Message.t) :
  sort_by_createdAt l ≡ₚ l.
Proof.
  unfold sort_by_createdAt.
  assert (Hgen : ∀ acc, foldl (fun acc m => insert_by_createdAt m acc) acc l
                        ≡ₚ acc ++ l).
  { induction l as [| x l IH]; intros acc; simpl.
    - by rewrite app_nil_r.
    - rewrite IH, insert_by_createdAt_perm.
      by rewrite (Permutation_middle acc l x). }
  by rewrite Hgen.
Qed.

Lemma sort_by_createdAt_sorted (l : list Message.t) :
  StronglySorted created_before (sort_by_createdAt l).
Proof.
  unfold sort_by_createdAt.
  assert (Hgen : ∀ acc, StronglySorted created_before acc →
            StronglySorted created_before
              (foldl (fun acc m => insert_by_createdAt m acc) acc l)).
  { induction l as [| x l IH]; intros acc Hacc; simpl; [done |].
    by apply IH, insert_by_createdAt_sorted. }
  apply Hgen. constructor.
Qed.

(* ===================================================================== *)
(** * Further properties: the direct send and the store *)
(* ===================================================================== *)

Section DirectSendStore.
Context `{ObjectIdLib}.

Lemma match_pair_sort2 (a b : string) (c : Conversation.t) :
  match_pair (sort2 a b) c = match_pair [a; b] c.
Proof.
  unfold sort2, match_pair. destruct (String.leb a b); simpl; [done |].
  destruct (length _ =? 2)%nat; simpl; [| done].
  by destruct (bool_decide (a ∈ _)), (bool_decide (b ∈ _)).
Qed.

Lemma match_pair_new (a b id : string) lm lmi lmt lmf (t1 t2 t3 n : Z) :
  match_pair [a; b] (Conversation.mk id [a; b] lm lmi lmt lmf t1 n t2 t3)
  = true.
Proof.
  unfold match_pair. simpl.
  rewrite !bool_decide_eq_true_2; [done | |].
  - apply list_elem_of_further, list_elem_of_here.
  - apply list_elem_of_here.
Qed.

Lemma Conversation_upsert_sort2 now (a b : string) preview from on_insert
    (d : db) :
  Conversation_upsert now (sort2 a b) preview from on_insert d
  = Conversation_upsert now [a; b] preview from on_insert d.
Proof.
  unfold Conversation_upsert.
  rewrite (find_ext _ _ _ (match_pair_sort2 a b)).
  by rewrite (update_first_ext _ _ _ _ (match_pair_sort2 a b)).
Qed.

(** The save of a message without a conversation, written out: the
    hook links the first conversation of the two users, or inserts one
    and links it. *)
Lemma Message_save_hook (now : Z) (f : MessageFields) (d : db) :
  f_conversation f = None →
  validate_message f = Ok tt →
  Message_save now f d
  = let ps := [canonical (f_sender f); stored_id (f_receiver f)] in
    let linked cid :=
      Message.mk (new_oid (oids d)) (Some cid) (canonical (f_sender f))
        (stored_id (f_receiver f)) (f_content f) now now now false None
        (f_attachments f) in
    match find (match_pair ps) (conversations d) with
    | Some c0 =>
        Ok (linked (Conversation._id c0),
            mkDb (messages d ++ [linked (Conversation._id c0)])
                 (conversations d) (S (oids d)))
    | None =>
        Ok (linked (new_oid (S (oids d))),
            mkDb (messages d ++ [linked (new_oid (S (oids d)))])
                 (conversations d
                  ++ [Conversation.mk (new_oid (S (oids d))) ps None None
                        None None now 0 now now])
                 (S (S (oids d))))
    end.
Proof.
  intros Hc Hv. unfold Message_save. rewrite Hv, Hc.
  cbn [mbind result_bind]. unfold pre_save. simpl.
  by destruct (find _ (conversations d)).
Qed.

Lemma Message_save_validated (now : Z) (f : MessageFields) (d : db)
    (r : Message.t * db) :
  Message_save now f d = Ok r → validate_message f = Ok tt.
Proof.
  unfold Message_save. by destruct (validate_message f) as [[] |].
Qed.

(** The store after a direct send that passes the validations: the
    save, then the upsert for the pair. *)
Lemma sendMessage_store (userId : string) (now : Z) (ev : SendMessage)
    (s : server) (receiver : string) :
  isValid userId = true →
  sm_receiver ev = Some receiver →
  receiver_missing_or_malformed ev || nothing_to_send ev = false →
  ∃ m d1,
    Message_save now
      (mkFields None userId (Str receiver) (default [] (sm_content ev))
         (default [] (sm_attachments ev))) (store s) = Ok (m, d1)
    ∧ store (sendMessage userId now ev s).1
      = (Conversation_upsert now [canonical userId; canonical receiver]
           (preview_of (default [] (sm_content ev))
              (default [] (sm_attachments ev)))
           (canonical userId) [canonical userId; canonical receiver] d1).2.
Proof.
  intros Hu Hr Hok.
  destruct (sendMessage_valid userId now ev s receiver Hu Hr Hok)
    as (m & d1 & Hsave & Hsend & _).
  assert (Hrv : isValid receiver = true).
  { apply orb_false_iff in Hok as [Hrec _].
    unfold receiver_missing_or_malformed in Hrec. rewrite Hr in Hrec.
    apply orb_false_iff in Hrec as [_ Hrv]. by apply negb_false_iff in Hrv. }
  exists m, d1. split; [exact Hsave |].
  rewrite Hsend. unfold sendMessage_try. rewrite Hsave, Hu, Hrv.
  cbn [mbind result_bind]. rewrite Conversation_upsert_sort2.
  by destruct (Conversation_upsert _ _ _ _ _ d1) as [c d2].
Qed.

(** X2.  A direct send that passes the validations, run by itself,
    leaves the saved message linked to a stored conversation of the
    sender and the receiver that carries the preview of this message;
    the pair has as many conversations as before, or one if it had
    none: the hook has already inserted the document that the upsert
    then finds. *)
Theorem direct_send_links_one_conversation
    (userId : string) (now : Z) (ev : SendMessage) (s : server)
    (receiver : string) :
  isValid userId = true →
  sm_receiver ev = Some receiver →
  receiver_missing_or_malformed ev || nothing_to_send ev = false →
  let s' := (sendMessage userId now ev s).1 in
  ∃ m c,
    last (messages (store s')) = Some m
    ∧ c ∈ conversations (store s')
    ∧ Message.conversation m = Some (Conversation._id c)
    ∧ match_pair [canonical userId; canonical receiver] c = true
    ∧ Conversation.lastMessage c
      = Some (preview_of (default [] (sm_content ev))
                (default [] (sm_attachments ev)))
    ∧ Conversation.lastMessageFrom c = Some (canonical userId)
    ∧ count_pair [canonical userId; canonical receiver] (store s')
      = max 1 (count_pair [canonical userId; canonical receiver] (store s)).
Proof.
  intros Hu Hr Hok s'.
  destruct (sendMessage_store userId now ev s receiver Hu Hr Hok)
    as (m & d1 & Hsave & Hstore).
  fold s' in Hstore. rewrite Hstore. clear Hstore.
  pose proof (Message_save_validated _ _ _ _ Hsave) as Hv.
  rewrite Message_save_hook in Hsave by done.
  cbn [f_sender f_receiver f_content f_attachments stored_id] in Hsave.
  set (u := canonical userId) in *. set (r := canonical receiver) in *.
  set (P := match_pair [u; r]) in *.
  unfold count_pair. fold P.
  destruct (find P (conversations (store s))) as [c0 |] eqn:Hf;
    injection Hsave as <- <-.
  - unfold Conversation_upsert. fold P. cbn [conversations]. rewrite Hf.
    cbn [snd messages conversations].
    eexists _, (set_last now _ u 0 c0).
    split; [by rewrite last_snoc |].
    split; [by apply update_first_find_elem |].
    split; [done |].
    split; [by apply find_Some_elem in Hf as [_ Hp] |].
    split; [done |]. split; [done |].
    rewrite filter_update_first_length by done.
    pose proof (filter_find_length _ _ _ Hf). lia.
  - set (c1 := Conversation.mk (new_oid (S (oids (store s))))
                 [u; r] None None None None now 0 now now).
    assert (Hf1 : find P (conversations (store s) ++ [c1]) = Some c1).
    { rewrite (find_app_None _ _ _ Hf). simpl.
      unfold P, c1. by rewrite match_pair_new. }
    unfold Conversation_upsert. fold P. cbn [conversations]. rewrite Hf1.
    cbn [snd messages conversations].
    eexists _, (set_last now _ u 0 c1).
    split; [by rewrite last_snoc |].
    split; [by apply update_first_find_elem |].
    split; [done |].
    split; [apply match_pair_new |].
    split; [done |]. split; [done |].
    rewrite filter_update_first_length by done.
    rewrite filter_app, length_app, (filter_none_length _ _ Hf).
    rewrite filter_cons, filter_nil.
    destruct (decide (P c1 = true)) as [| Hn]; [done |].
    exfalso. apply Hn. apply match_pair_new.
Qed.

End DirectSendStore.

Section DirectSendEffects.
Context `{ObjectIdLib}.

(** The messages after a direct send that passes the validations: the
    old ones, then the new one, unread, from the caller to the receiver. *)
Lemma sendMessage_appends_unread (userId : string) (now : Z)
    (ev : SendMessage) (s : server) (receiver : string) :
  isValid userId = true →
  sm_receiver ev = Some receiver →
  receiver_missing_or_malformed ev || nothing_to_send ev = false →
  ∃ m, messages (store (sendMessage userId now ev s).1)
       = messages (store s) ++ [m]
       ∧ Message.sender m = canonical userId
       ∧ Message.receiver m = canonical receiver
       ∧ Message.read m = false ∧ Message.readAt m = None
       ∧ Message.createdAt m = now.
Proof.
  intros Hu Hr Hok.
  destruct (sendMessage_store userId now ev s receiver Hu Hr Hok)
    as (m & d1 & Hsave & Hstore).
  rewrite Hstore, Conversation_upsert_messages.
  pose proof (Message_save_validated _ _ _ _ Hsave) as Hv.
  rewrite Message_save_hook in Hsave by done.
  cbn [f_sender f_receiver f_content f_attachments stored_id] in Hsave.
  exists m.
  destruct (find _ (conversations (store s))); by injection Hsave as <- <-.
Qed.

(** X3.  A direct send that passes the validations raises the unread
    count that [GET /unread-count] reports for the receiver by exactly
    one, and leaves the count reported for every user with another
    identifier as it was. *)
Theorem direct_send_raises_receiver_unread_count
    (userId : string) (now : Z) (ev : SendMessage) (s : server)
    (receiver : string) :
  isValid userId = true →
  sm_receiver ev = Some receiver →
  receiver_missing_or_malformed ev || nothing_to_send ev = false →
  let s' := (sendMessage userId now ev s).1 in
  ∃ n,
    get_unread_count receiver (store s) = Reply 200 (RCount n)
    ∧ get_unread_count receiver (store s') = Reply 200 (RCount (S n))
    ∧ ∀ other, canonical other ≠ canonical receiver →
        get_unread_count other (store s') = get_unread_count other (store s).
Proof.
  intros Hu Hr Hok s'.
  destruct (sendMessage_appends_unread userId now ev s receiver Hu Hr Hok)
    as (m & Hm & _ & Hrcv & Hread & _).
  fold s' in Hm.
  assert (Hvalid : isValid receiver = true).
  { apply orb_false_iff in Hok as [Hrec _].
    unfold receiver_missing_or_malformed in Hrec. rewrite Hr in Hrec.
    apply orb_false_iff in Hrec as [_ Hv]. by apply negb_false_iff in Hv. }
  unfold get_unread_count. rewrite Hm.
  eexists. split; [| split].
  - unfold cast_oid. by rewrite Hvalid.
  - unfold cast_oid. rewrite Hvalid. f_equal. f_equal.
    rewrite filter_app, length_app, filter_cons, filter_nil.
    destruct (decide _) as [| Hn]; [simpl; lia |].
    exfalso. by apply Hn.
  - intros other Hne. unfold cast_oid. destruct (isValid other); [| done].
    f_equal. f_equal.
    rewrite filter_app, length_app, filter_cons, filter_nil.
    destruct (decide _) as [[Ho _] |]; [congruence | simpl; lia].
Qed.

(** X4.  A direct send addressed to the caller itself does not open a
    conversation of its own when the caller already takes part in any
    two-party conversation: the filter [$all: [u, u]] matches the first
    such conversation, the message is filed there, and the other
    participant of that conversation gets it with the history. *)
Theorem self_send_joins_shared_conversation
    (userId : string) (now : Z) (ev : SendMessage) (s : server)
    (c0 : Conversation.t) :
  isValid userId = true →
  sm_receiver ev = Some userId →
  receiver_missing_or_malformed ev || nothing_to_send ev = false →
  find (fun c => (length (Conversation.participants c) =? 2)%nat
                 && bool_decide (canonical userId
                                   ∈ Conversation.participants c))
       (conversations (store s)) = Some c0 →
  let s' := (sendMessage userId now ev s).1 in
  ∃ m,
    last (messages (store s')) = Some m
    ∧ Message.sender m = canonical userId
    ∧ Message.receiver m = canonical userId
    ∧ Message.conversation m = Some (Conversation._id c0)
    ∧ length (conversations (store s')) = length (conversations (store s))
    ∧ ∀ other cid now',
        canonical other ∈ Conversation.participants c0 →
        isValid other = true →
        isValid cid = true → canonical cid = Conversation._id c0 →
        ∃ history,
          (get_messages other now' cid (store s')).2
          = Respond 200 (BData history)
          ∧ m ∈ history.
Proof.
  intros Hu Hr Hok Hfirst s'.
  destruct (sendMessage_store userId now ev s userId Hu Hr Hok)
    as (m & d1 & Hsave & Hstore).
  fold s' in Hstore. rewrite Hstore. clear Hstore.
  pose proof (Message_save_validated _ _ _ _ Hsave) as Hv.
  rewrite Message_save_hook in Hsave by done.
  cbn [f_sender f_receiver f_content f_attachments stored_id] in Hsave.
  set (u := canonical userId) in *.
  set (P := match_pair [u; u]) in *.
  assert (Hf : find P (conversations (store s)) = Some c0).
  { rewrite <- Hfirst. apply find_ext. intros c. unfold P, match_pair.
    simpl. destruct (length _ =? 2)%nat; simpl; [| done].
    by destruct (bool_decide (u ∈ _)). }
  rewrite Hf in Hsave. injection Hsave as <- <-.
  unfold Conversation_upsert. fold P. cbn [conversations]. rewrite Hf.
  cbn [snd messages conversations].
  eexists. split; [by rewrite last_snoc |].
  split; [done |]. split; [done |]. split; [done |].
  split; [by rewrite update_first_length |].
  intros other cid now' Hin Ho Hc Hcid.
  unfold get_messages, cast_oid. rewrite Hc, Ho.
  cbn [mbind result_bind conversations].
  set (F := set_last now
              (preview_of (default [] (sm_content ev))
                 (default [] (sm_attachments ev))) u 0).
  destruct (find_is_Some
              (fun c => bool_decide (Conversation._id c = canonical cid)
                        && bool_decide (canonical other
                                          ∈ Conversation.participants c))
              (update_first P F (conversations (store s))) (F c0))
    as [c2 Hc2].
  { by apply update_first_find_elem. }
  { simpl. by rewrite !bool_decide_eq_true_2. }
  rewrite Hc2. eexists. split; [reflexivity |].
  rewrite sort_by_createdAt_perm. apply list_elem_of_filter.
  split; [by rewrite Hcid |]. cbn [messages]. apply elem_of_app. right.
  apply list_elem_of_here.
Qed.

End DirectSendEffects.

(* ===================================================================== *)
(** * Further properties: sends into a conversation *)
(* ===================================================================== *)

Section ConversationDialects.
Context `{ObjectIdLib}.

Lemma find_and {A} (p q : A → bool) (l : list A) (x : A) :
  find p l = Some x → q x = true → find (fun y => p y && q y) l = Some x.
Proof.
  induction l as [| y l IH]; [done |]. simpl.
  destruct (p y) eqn:Hy; simpl.
  - intros [= ->] ->. done.
  - apply IH.
Qed.

Lemma find_and_None {A} (p q : A → bool) (l : list A) :
  (∀ x, x ∈ l → p x = true → q x = false) →
  find (fun y => p y && q y) l = None.
Proof.
  intros Hall. apply find_none_elem. intros x Hx.
  destruct (p x) eqn:Hp; [| done]. by rewrite (Hall x Hx Hp).
Qed.

Lemma trim_nonempty (t : js_string) :
  is_empty (trim t) = false → is_empty t = false.
Proof.
  intros Ht. destruct (is_empty t) eqn:He; [| done].
  by rewrite (trim_empty _ He) in Ht.
Qed.

(** The save of a text message into a named conversation, for a
    receiver taken from a stored document, written out. *)
Lemma Message_save_filed (now : Z) (cid sender receiver : string)
    (content : js_string) (d : db) :
  isValid cid = true → isValid sender = true →
  is_empty content = false →
  Message_save now (mkFields (Some cid) sender (Oid receiver) content []) d
  = let m := Message.mk (new_oid (oids d)) (Some (canonical cid))
               (canonical sender) receiver content now now now false None
               [] in
    Ok (m, mkDb (messages d ++ [m]) (conversations d) (S (oids d))).
Proof.
  intros Hc Hs He. unfold Message_save.
  rewrite validate_message_ok; [done | done | done | done |].
  simpl. by rewrite He.
Qed.

(** A send into a conversation over the socket, by anyone, when the
    identifier names a conversation that has a participant other than
    the caller: the resulting state and emissions, written out. *)
Lemma newMessage_resolved (userId : string) (now : Z) (cid : string)
    (text : js_string) (s : server) (c : Conversation.t)
    (recipient : string) :
  cid ≠ "" → isValid cid = true → isValid userId = true →
  is_empty (trim text) = false →
  find (conversation_is (canonical cid)) (conversations (store s)) = Some c →
  other_participant userId c = Some recipient →
  let m := filed (store s) now cid userId recipient text in
  let formatted := PNewMessage cid m (Some userId) in
  let mine := PSummary (mkSummary cid recipient (trim text) now 0) in
  let theirs := PSummary (mkSummary cid userId (trim text) now 1) in
  newMessage userId now (mkNew (Some cid) (Some text)) s
  = (mkServer
       (mkDb (messages (store s) ++ [m])
          (update_first (conversation_is (canonical cid))
             (set_last now (trim text) (canonical userId) 1) (conversations (store s)))
          (S (oids (store s))))
       (onlineUsers s) (rooms s),
     [Emit ToSender "newMessage" formatted]
     ++ match truthy (onlineUsers s !! recipient) with
        | Some h => [Emit (ToRoom h) "newMessage" formatted;
                     Emit (ToRoom h) "receiveMessage" (PMessage m)]
        | None => []
        end
     ++ [Emit (ToRoom recipient) "newMessage" formatted;
         Emit (ToRoom recipient) "receiveMessage" (PMessage m);
         Emit ToSender "messageSaved" (PMessage m);
         Emit ToSender "conversationUpdated" mine]
     ++ match truthy (onlineUsers s !! recipient) with
        | Some h => [Emit (ToRoom h) "conversationUpdated" theirs]
        | None => []
        end
     ++ [Emit (ToRoom recipient) "conversationUpdated" theirs]).
Proof.
  intros Hne Hc Hu Ht Hfind Hother. simpl.
  unfold newMessage. simpl.
  rewrite (bool_decide_eq_false_2 _ Hne), (trim_nonempty _ Ht), Ht. simpl.
  unfold newMessage_try, Conversation_findById, cast_oid. rewrite Hc.
  cbn [mbind result_bind].
  unfold conversation_is in Hfind. rewrite Hfind.
  unfold other_participant in Hother. rewrite Hother.
  rewrite Message_save_filed by done. reflexivity.
Qed.

(** A send into a conversation over HTTP by a participant, when the
    conversation has another participant: the resulting store and reply,
    written out. *)
Lemma post_conversation_message_resolved (userId : string) (now : Z)
    (cid : string) (text : js_string) (d : db) (c : Conversation.t)
    (recipient : string) :
  isValid cid = true → isValid userId = true →
  is_empty (trim text) = false →
  find (conversation_is (canonical cid)) (conversations d) = Some c →
  canonical userId ∈ Conversation.participants c →
  other_participant userId c = Some recipient →
  let m := filed d now cid userId recipient text in
  post_conversation_message userId now cid (Some text) d
  = (mkDb (messages d ++ [m])
       (update_first (conversation_is (canonical cid))
          (set_last_http now (Message._id m) (trim text) (canonical userId))
          (conversations d))
       (S (oids d)),
     Reply 200 (RMessage m)).
Proof.
  intros Hc Hu Ht Hfind Hin Hother. simpl.
  unfold post_conversation_message.
  rewrite (trim_nonempty _ Ht), Ht. simpl.
  unfold post_conversation_message_try, cast_oid. rewrite Hc, Hu.
  cbn [mbind result_bind].
  rewrite (find_and _ (fun c => bool_decide (canonical userId
                                       ∈ Conversation.participants c))
             _ c Hfind) by by apply bool_decide_eq_true_2.
  unfold other_participant in Hother. rewrite Hother.
  cbn [from_option mbind result_bind].
  rewrite Message_save_filed by done. reflexivity.
Qed.

(** X5.  The socket handler of a send into a conversation does not
    check that the caller takes part in it: for a caller outside the
    conversation the HTTP route answers 404 and writes nothing, while
    the socket handler stores the message, addressed to the first
    participant, and raises the conversation's unread counter. *)
Theorem socket_send_skips_participant_check
    (userId : string) (now : Z) (cid : string) (text : js_string)
    (s : server) (c : Conversation.t) (first : string) (rest : list string) :
  cid ≠ "" → isValid cid = true → isValid userId = true →
  is_empty (trim text) = false →
  find (conversation_is (canonical cid)) (conversations (store s)) = Some c →
  Conversation.participants c = first :: rest → first ≠ userId →
  (∀ c', c' ∈ conversations (store s) →
         Conversation._id c' = canonical cid →
         canonical userId ∉ Conversation.participants c') →
  post_conversation_message userId now cid (Some text) (store s)
  = (store s,
     Reply 404 (RText "Conversation not found or you are not a participant"))
  ∧ ∃ m c',
      messages (store (newMessage userId now (mkNew (Some cid) (Some text))
                         s).1)
      = messages (store s) ++ [m]
      ∧ Message.sender m = canonical userId ∧ Message.receiver m = first
      ∧ Message.conversation m = Some (canonical cid)
      ∧ find (conversation_is (canonical cid))
          (conversations
             (store (newMessage userId now (mkNew (Some cid) (Some text))
                       s).1)) = Some c'
      ∧ Conversation.unreadCount c' = (Conversation.unreadCount c + 1)%Z
      ∧ Conversation.lastMessageFrom c' = Some (canonical userId).
Proof.
  intros Hne Hc Hu Ht Hfind Hps Hfirst Hout.
  assert (Hother : other_participant userId c = Some first).
  { unfold other_participant. rewrite Hps. simpl.
    by rewrite bool_decide_eq_false_2. }
  split.
  - unfold post_conversation_message.
    rewrite (trim_nonempty _ Ht), Ht. simpl.
    unfold post_conversation_message_try, cast_oid. rewrite Hc, Hu.
    cbn [mbind result_bind].
    rewrite find_and_None; [done |].
    intros c' Hin Hid. apply bool_decide_eq_true in Hid.
    apply bool_decide_eq_false_2. by apply Hout.
  - rewrite (newMessage_resolved userId now cid text s c first) by done.
    cbn [fst store messages conversations].
    eexists _, _. split; [done |]. split; [done |]. split; [done |].
    split; [done |].
    rewrite find_update_first by done. rewrite Hfind. simpl.
    by split.
Qed.

(** X6.  A send into a conversation over the socket that goes through
    stores the trimmed text without attachments, echoes it to the sender
    in both shapes, publishes it in both shapes to the room of the other
    participant, and also to that participant's recorded socket when
    there is one; nothing is emitted to any other target. *)
Theorem conversation_send_delivery
    (userId : string) (now : Z) (cid : string) (text : js_string)
    (s : server) (c : Conversation.t) (recipient : string) :
  cid ≠ "" → isValid cid = true → isValid userId = true →
  is_empty (trim text) = false →
  find (conversation_is (canonical cid)) (conversations (store s)) = Some c →
  other_participant userId c = Some recipient →
  let r := newMessage userId now (mkNew (Some cid) (Some text)) s in
  ∃ m,
    last (messages (store r.1)) = Some m
    ∧ Message.content m = trim text ∧ Message.attachments m = []
    ∧ Emit ToSender "newMessage" (PNewMessage cid m (Some userId)) ∈ r.2
    ∧ Emit ToSender "messageSaved" (PMessage m) ∈ r.2
    ∧ Emit (ToRoom recipient) "newMessage" (PNewMessage cid m (Some userId))
      ∈ r.2
    ∧ Emit (ToRoom recipient) "receiveMessage" (PMessage m) ∈ r.2
    ∧ (∀ h, onlineUsers s !! recipient = Some h → h ≠ "" →
            Emit (ToRoom h) "newMessage" (PNewMessage cid m (Some userId))
            ∈ r.2
            ∧ Emit (ToRoom h) "receiveMessage" (PMessage m) ∈ r.2)
    ∧ (∀ e, e ∈ r.2 →
            to e = ToSender ∨ to e = ToRoom recipient
            ∨ ∃ h, onlineUsers s !! recipient = Some h ∧ to e = ToRoom h).
Proof.
  intros Hne Hc Hu Ht Hfind Hother r. subst r.
  rewrite (newMessage_resolved userId now cid text s c recipient) by done.
  cbn [fst snd store messages].
  eexists. split; [by rewrite last_snoc |].
  split; [done |]. split; [done |].
  split; [apply list_elem_of_here |].
  split.
  { rewrite !elem_of_app. right. right. left.
    do 2 apply list_elem_of_further. apply list_elem_of_here. }
  split.
  { rewrite !elem_of_app. right. right. left. apply list_elem_of_here. }
  split.
  { rewrite !elem_of_app. right. right. left.
    apply list_elem_of_further, list_elem_of_here. }
  split.
  - intros h Hh Hhne. rewrite Hh. unfold truthy.
    rewrite (bool_decide_eq_false_2 _ Hhne). split.
    + rewrite !elem_of_app. right. left. apply list_elem_of_here.
    + rewrite !elem_of_app. right. left.
      apply list_elem_of_further, list_elem_of_here.
  - intros e He.
    assert (Hh : ∀ h, truthy (onlineUsers s !! recipient) = Some h →
                      onlineUsers s !! recipient = Some h).
    { intros h. unfold truthy. destruct (onlineUsers s !! recipient) as [h' |];
        [| done]. by destruct (bool_decide (h' = "")); [| intros [= ->]]. }
    destruct (truthy (onlineUsers s !! recipient)) as [h |] eqn:Hon.
    + specialize (Hh h eq_refl).
      repeat (apply elem_of_app in He as [He | He]);
        repeat (apply elem_of_cons in He as [-> | He]);
        try (by apply elem_of_nil in He); simpl; eauto.
    + repeat (apply elem_of_app in He as [He | He]);
        repeat (apply elem_of_cons in He as [-> | He]);
        try (by apply elem_of_nil in He); simpl; eauto.
Qed.

(** X7.  A send into a conversation whose participants are all the
    caller finds no recipient: the sender gets the recipient error and
    nothing is written. *)
Theorem conversation_send_without_recipient
    (userId : string) (now : Z) (cid : string) (text : js_string)
    (s : server) (c : Conversation.t) :
  cid ≠ "" → isValid cid = true →
  is_empty (trim text) = false →
  find (conversation_is (canonical cid)) (conversations (store s)) = Some c →
  Forall (fun p => p = userId) (Conversation.participants c) →
  newMessage userId now (mkNew (Some cid) (Some text)) s
  = (s, [error "Recipient not found in conversation" None]).
Proof.
  intros Hne Hc Ht Hfind Hall.
  unfold newMessage. simpl.
  rewrite (bool_decide_eq_false_2 _ Hne), (trim_nonempty _ Ht), Ht. simpl.
  unfold newMessage_try, Conversation_findById, cast_oid. rewrite Hc.
  cbn [mbind result_bind].
  unfold conversation_is in Hfind. rewrite Hfind.
  rewrite find_none_elem; [done |].
  intros p Hp. rewrite Forall_forall in Hall.
  by rewrite (bool_decide_eq_true_2 _ (Hall p Hp)).
Qed.

End ConversationDialects.

Section ConversationCompositions.
Context `{ObjectIdLib}.

Lemma update_first_Forall2 {A} (R : A → A → Prop) (p : A → bool)
    (f g : A → A) (l : list A) :
  (∀ x, R x x) → (∀ x, R (f x) (g x)) →
  Forall2 R (update_first p f l) (update_first p g l).
Proof.
  intros Hrefl Hfg. induction l as [| x l IH]; simpl; [constructor |].
  destruct (p x); constructor; auto.
  clear IH. induction l; constructor; auto.
Qed.

(** X8.  For a participant, the HTTP route and the socket handler of a
    send into a conversation store the same message and leave the same
    conversations up to the two paths that only one of them sets: both
    raise the unread counter by one, the HTTP route alone records the
    message's identifier as [lastMessageId]. *)
Theorem conversation_send_dialects_agree
    (userId : string) (now : Z) (cid : string) (text : js_string)
    (s : server) (c : Conversation.t) (recipient : string) :
  cid ≠ "" → isValid cid = true → isValid userId = true →
  is_empty (trim text) = false →
  find (conversation_is (canonical cid)) (conversations (store s)) = Some c →
  canonical userId ∈ Conversation.participants c →
  other_participant userId c = Some recipient →
  let dH := (post_conversation_message userId now cid (Some text)
               (store s)).1 in
  let dS := store (newMessage userId now (mkNew (Some cid) (Some text))
                     s).1 in
  messages dH = messages dS
  ∧ Forall2
      (fun cH cS =>
         Conversation._id cH = Conversation._id cS
         ∧ Conversation.participants cH = Conversation.participants cS
         ∧ Conversation.lastMessageText cH = Conversation.lastMessageText cS
         ∧ Conversation.lastMessageFrom cH = Conversation.lastMessageFrom cS
         ∧ Conversation.lastMessageAt cH = Conversation.lastMessageAt cS
         ∧ Conversation.unreadCount cH = Conversation.unreadCount cS
         ∧ Conversation.createdAt cH = Conversation.createdAt cS)
      (conversations dH) (conversations dS)
  ∧ ∃ cH cS,
      find (conversation_is (canonical cid)) (conversations dH) = Some cH
      ∧ find (conversation_is (canonical cid)) (conversations dS) = Some cS
      ∧ Conversation.unreadCount cH = (Conversation.unreadCount c + 1)%Z
      ∧ Conversation.lastMessageId cH
        = Some (Message._id (filed (store s) now cid userId recipient text))
      ∧ Conversation.lastMessageId cS = Conversation.lastMessageId c.
Proof.
  intros Hne Hc Hu Ht Hfind Hin Hother dH dS. subst dH dS.
  rewrite (post_conversation_message_resolved userId now cid text (store s)
             c recipient) by done.
  rewrite (newMessage_resolved userId now cid text s c recipient) by done.
  cbn [fst store messages conversations].
  split; [done |]. split.
  - by apply update_first_Forall2.
  - rewrite !find_update_first by done. rewrite Hfind. simpl.
    by eexists _, _.
Qed.

(** X9.  The HTTP send into a conversation and the socket send do not
    recognise each other: when both are issued for the same text, the
    HTTP request first, the store ends with two messages of that text
    and the conversation's unread counter two higher. *)
Theorem http_then_socket_send_stores_twice
    (userId : string) (now1 now2 : Z) (cid : string) (text : js_string)
    (s : server) (c : Conversation.t) (recipient : string) :
  cid ≠ "" → isValid cid = true → isValid userId = true →
  is_empty (trim text) = false →
  find (conversation_is (canonical cid)) (conversations (store s)) = Some c →
  canonical userId ∈ Conversation.participants c →
  other_participant userId c = Some recipient →
  let d1 := (post_conversation_message userId now1 cid (Some text)
               (store s)).1 in
  let s1 := mkServer d1 (onlineUsers s) (rooms s) in
  let s2 := (newMessage userId now2 (mkNew (Some cid) (Some text)) s1).1 in
  ∃ m1 m2 c2,
    messages (store s2) = messages (store s) ++ [m1; m2]
    ∧ Message.content m1 = trim text ∧ Message.content m2 = trim text
    ∧ Message.sender m1 = canonical userId
    ∧ Message.sender m2 = canonical userId
    ∧ Message.receiver m1 = recipient ∧ Message.receiver m2 = recipient
    ∧ find (conversation_is (canonical cid)) (conversations (store s2)) = Some c2
    ∧ Conversation.unreadCount c2 = (Conversation.unreadCount c + 2)%Z.
Proof.
  intros Hne Hc Hu Ht Hfind Hin Hother d1 s1 s2. subst s2 s1 d1.
  rewrite (post_conversation_message_resolved userId now1 cid text (store s)
             c recipient) by done.
  cbn [fst].
  set (d1 := mkDb _ _ _).
  assert (Hfind1 : find (conversation_is (canonical cid)) (conversations d1)
                   = Some (set_last_http now1
                             (Message._id (filed (store s) now1 cid userId
                                             recipient text))
                             (trim text) (canonical userId) c)).
  { unfold d1. cbn [conversations].
    rewrite find_update_first by done. by rewrite Hfind. }
  rewrite (newMessage_resolved userId now2 cid text
             (mkServer d1 (onlineUsers s) (rooms s)) _ recipient Hne Hc Hu Ht
             Hfind1 Hother).
  cbn [fst store messages conversations]. unfold d1.
  cbn [messages conversations].
  eexists _, _, _. split; [by rewrite <- app_assoc |].
  do 6 (split; [done |]).
  rewrite !find_update_first by done. rewrite Hfind. simpl.
  split; [reflexivity |]. simpl. lia.
Qed.

Lemma delete_message_last (id : string) (msgs : list Message.t)
    (m : Message.t) (convs : list Conversation.t) (n : nat) :
  isValid id = true →
  find (fun m => bool_decide (Message._id m = canonical id)) msgs = None →
  Message._id m = canonical id →
  delete_message id (mkDb (msgs ++ [m]) convs n)
  = (mkDb msgs convs n, Reply 200 (RText "Message deleted successfully")).
Proof.
  intros Hid Hnone Hm. unfold delete_message, cast_oid. rewrite Hid.
  cbn [messages conversations oids].
  rewrite (find_app_None _ _ _ Hnone). simpl.
  rewrite (bool_decide_eq_true_2 _ Hm).
  rewrite delete_first_app_None; [done | done |].
  by apply bool_decide_eq_true_2.
Qed.

Lemma delete_message_absent (id : string) (d : db) :
  isValid id = true →
  find (fun m => bool_decide (Message._id m = canonical id)) (messages d)
  = None →
  delete_message id d = (d, Reply 404 (RText "Message not found")).
Proof.
  intros Hid Hnone. unfold delete_message, cast_oid. by rewrite Hid, Hnone.
Qed.

(** X10.  Deleting a message takes it out of the store and touches
    nothing else: after a socket send into a conversation and the
    deletion of the message it stored (named by a string [mid] that
    denotes its identifier), the messages are those from before the
    send while the conversation still shows the deleted text as its
    preview and counts it as unread; a second deletion answers 404. *)
Theorem delete_leaves_conversation_as_sent
    (userId : string) (now : Z) (cid : string) (text : js_string)
    (s : server) (c : Conversation.t) (recipient mid : string) :
  cid ≠ "" → isValid cid = true → isValid userId = true →
  is_empty (trim text) = false →
  find (conversation_is (canonical cid)) (conversations (store s)) = Some c →
  other_participant userId c = Some recipient →
  isValid mid = true → canonical mid = new_oid (oids (store s)) →
  (∀ m, m ∈ messages (store s) → Message._id m ≠ new_oid (oids (store s))) →
  let sent := store (newMessage userId now (mkNew (Some cid) (Some text))
                       s).1 in
  ∃ c',
    (delete_message mid sent).2
    = Reply 200 (RText "Message deleted successfully")
    ∧ messages (delete_message mid sent).1 = messages (store s)
    ∧ conversations (delete_message mid sent).1 = conversations sent
    ∧ find (conversation_is (canonical cid))
        (conversations (delete_message mid sent).1) = Some c'
    ∧ Conversation.lastMessage c' = Some (trim text)
    ∧ Conversation.unreadCount c' = (Conversation.unreadCount c + 1)%Z
    ∧ delete_message mid (delete_message mid sent).1
      = ((delete_message mid sent).1, Reply 404 (RText "Message not found")).
Proof.
  intros Hne Hc Hu Ht Hfind Hother Hid Hmid Hfresh sent. subst sent.
  rewrite (newMessage_resolved userId now cid text s c recipient) by done.
  cbn [fst store].
  assert (Hnone : find (fun m => bool_decide (Message._id m = canonical mid))
                    (messages (store s)) = None).
  { apply find_none_elem. intros m Hm. apply bool_decide_eq_false_2.
    rewrite Hmid. by apply Hfresh. }
  rewrite delete_message_last by done.
  cbn [fst snd messages conversations].
  rewrite delete_message_absent by done.
  eexists. split; [done |]. split; [done |]. split; [done |].
  rewrite find_update_first by done. rewrite Hfind. simpl.
  by repeat split.
Qed.

End ConversationCompositions.

(* ===================================================================== *)
(** * Further properties: the history route *)
(* ===================================================================== *)

Section FetchRoute.
Context `{ObjectIdLib}.

(** X11.  The history route writes only for a participant: either it
    answers 200 and the store holds a conversation of the identifier
    that [cid] denotes with the caller's identifier among its
    participants, or it answers 404 or 500 and the store is as it was. *)
Theorem fetch_writes_only_for_participant
    (userId : string) (now : Z) (cid : string) (d : db) :
  let r := get_messages userId now cid d in
  (status r.2 = 200
   ∧ ∃ c, c ∈ conversations d ∧ Conversation._id c = canonical cid
          ∧ canonical userId ∈ Conversation.participants c)
  ∨ (r.1 = d ∧ (status r.2 = 404 ∨ status r.2 = 500)).
Proof.
  unfold get_messages, cast_oid.
  destruct (isValid cid); [| right; simpl; auto].
  destruct (isValid userId); [| right; simpl; auto].
  cbn [mbind result_bind].
  destruct (find _ (conversations d)) as [c |] eqn:Hf; [| right; simpl; auto].
  left. split; [done |]. exists c.
  apply find_Some_elem in Hf as [Hin Hp].
  apply andb_true_iff in Hp as [Hid Hu].
  apply bool_decide_eq_true in Hid. apply bool_decide_eq_true in Hu. done.
Qed.

(** X12.  The history of a 200 answer is the messages of the
    conversation as they were stored before the fetch marked them, in
    ascending order of creation: a message that the fetch marks is
    returned unread and is not in the store any more in that state. *)
Theorem fetch_history_is_sorted_snapshot
    (userId : string) (now : Z) (cid : string) (d : db)
    (history : list Message.t) :
  (get_messages userId now cid d).2 = Respond 200 (BData history) →
  history ≡ₚ filter (fun m => Message.conversation m = Some (canonical cid))
               (messages d)
  ∧ StronglySorted created_before history
  ∧ ∀ m, m ∈ history → Message.sender m ≠ canonical userId →
         Message.read m = false →
         m ∉ messages (get_messages userId now cid d).1.
Proof.
  unfold get_messages, cast_oid.
  destruct (isValid cid); [| done].
  destruct (isValid userId); [| done].
  cbn [mbind result_bind].
  destruct (find _ (conversations d)) as [c |]; [| done].
  cbn [fst snd]. intros [= <-].
  split; [apply sort_by_createdAt_perm |].
  split; [apply sort_by_createdAt_sorted |].
  intros m Hm Hs Hread. rewrite sort_by_createdAt_perm in Hm.
  apply list_elem_of_filter in Hm as [Hconv _].
  cbn [messages Message_updateMany]. intros Hin.
  apply list_elem_of_fmap in Hin as (x & Hx & _).
  destruct (unread_from_other (canonical cid) (canonical userId) x) eqn:Hfx.
  - subst m. simpl in Hread. done.
  - subst x. unfold unread_from_other in Hfx.
    rewrite (bool_decide_eq_true_2 _ Hconv),
      (bool_decide_eq_false_2 _ Hs), Hread in Hfx. done.
Qed.

Lemma updateMany_unread_split (u cid : string) (now : Z)
    (l : list Message.t) :
  length (filter (fun m => Message.receiver m = u ∧ Message.read m = false) l)
  = length (filter (fun m => Message.receiver m = u ∧ Message.read m = false)
              ((fun m => if unread_from_other cid u m then set_read_at now m
                         else m) <$> l))
    + length (filter (fun m => Message.receiver m = u
                               ∧ unread_from_other cid u m = true) l).
Proof.
  induction l as [| x l IH]; [done |].
  rewrite fmap_cons, !filter_cons.
  destruct (unread_from_other cid u x) eqn:Hf.
  - assert (Hr : Message.read x = false).
    { unfold unread_from_other in Hf.
      apply andb_true_iff in Hf as [_ Hf]. by apply negb_true_iff in Hf. }
    destruct (decide (Message.receiver x = u ∧ Message.read x = false))
      as [[Hx _] | Hn];
      destruct (decide (Message.receiver (set_read_at now x) = u
                        ∧ Message.read (set_read_at now x) = false))
        as [[_ Hy] | _]; try done;
      destruct (decide (Message.receiver x = u ∧ true = true))
        as [[Hz _] | Hz]; simpl; try lia.
    + exfalso. by apply Hz.
    + exfalso. by apply Hn.
  - destruct (decide (Message.receiver x = u ∧ Message.read x = false));
      destruct (decide (Message.receiver x = u ∧ false = true))
        as [[_ ?] |]; try done; simpl; lia.
Qed.

(** X13.  A fetch by a participant lowers the unread count that
    [GET /unread-count] reports for that participant by exactly the
    number of unread messages of the conversation that others had
    addressed to them. *)
Theorem fetch_lowers_unread_count
    (userId : string) (now : Z) (cid : string) (d : db)
    (history : list Message.t) :
  (get_messages userId now cid d).2 = Respond 200 (BData history) →
  ∃ n,
    get_unread_count userId (get_messages userId now cid d).1
    = Reply 200 (RCount n)
    ∧ get_unread_count userId d
      = Reply 200
          (RCount (n + length
                         (filter (fun m => Message.receiver m
                                           = canonical userId
                                           ∧ unread_from_other
                                               (canonical cid)
                                               (canonical userId) m
                                             = true)
                                 (messages d)))).
Proof.
  unfold get_messages, get_unread_count, cast_oid.
  destruct (isValid cid); [| done].
  destruct (isValid userId); [| done].
  cbn [mbind result_bind].
  destruct (find _ (conversations d)) as [c |]; [| done].
  cbn [fst snd messages Message_updateMany]. intros _.
  eexists. split; [reflexivity |].
  by rewrite (updateMany_unread_split (canonical userId) (canonical cid) now).
Qed.

End FetchRoute.

(* ===================================================================== *)
(** * Further properties: marking read *)
(* ===================================================================== *)

Section MarkReadEdges.
Context `{ObjectIdLib}.

Lemma updateMany_none (filter : Message.t → bool)
    (update : Message.t → Message.t) (d : db) :
  (∀ m, m ∈ messages d → filter m = false) →
  Message_updateMany filter update d = d.
Proof.
  intros Hnone. unfold Message_updateMany. destruct d as [ms cs n].
  simpl in *. f_equal.
  induction ms as [| x ms IH]; [done |].
  rewrite fmap_cons, (Hnone x) by apply list_elem_of_here.
  rewrite IH; [done |]. intros m Hm. apply Hnone.
  by apply list_elem_of_further.
Qed.

(** X14.  Marking identifiers that name no stored message changes
    nothing in the store, and is acknowledged all the same: the socket
    handler sends the read receipt for the listed identifiers and the
    HTTP route answers 200 with a count of 0. *)
Theorem mark_read_of_unknown_ids_is_acknowledged
    (now : Z) (ids : list string) (s : server) :
  ids ≠ [] →
  forallb isValid ids = true →
  (∀ m, m ∈ messages (store s) → Message._id m ∉ canonical <$> ids) →
  store (markRead now (Some ids) s).1 = store s
  ∧ (markRead now (Some ids) s).2
    = [Emit ToSender "readReceipt" (PReadReceipt (Some ids))]
  ∧ put_mark_read now (Some ids) (store s)
    = (store s, Respond 200 (BMarked 0)).
Proof.
  intros Hne Hvalid Hnone.
  assert (Hf : ∀ m, m ∈ messages (store s) →
                    id_in (canonical <$> ids) m = false).
  { intros m Hm. apply bool_decide_eq_false_2. by apply Hnone. }
  unfold markRead, put_mark_read, cast_ids. simpl. rewrite Hvalid. simpl.
  rewrite !updateMany_none by done.
  split; [done |]. split; [done |].
  destruct ids as [| i ids]; [done |].
  do 3 f_equal. unfold modifiedCount.
  induction (messages (store s)) as [| m l IH]; [done |].
  rewrite filter_cons. destruct (decide _) as [[Hin _] |].
  - rewrite (Hf m) in Hin by apply list_elem_of_here. done.
  - apply IH.
    + intros m' Hm'. apply Hnone. by apply list_elem_of_further.
    + intros m' Hm'. apply Hf. by apply list_elem_of_further.
Qed.

(** X15.  One malformed identifier in the list makes the whole marking
    fail before anything is written, also for the well-formed
    identifiers of the list: the socket handler stays silent and the
    HTTP route answers 500. *)
Theorem mark_read_with_malformed_id_marks_nothing
    (now : Z) (ids : list string) (bad : string) (s : server) :
  bad ∈ ids →
  isValid bad = false →
  markRead now (Some ids) s = (s, [])
  ∧ put_mark_read now (Some ids) (store s)
    = (store s, Respond 500 (BThrown (CastError "_id"))).
Proof.
  intros Hin Hbad.
  assert (Hall : forallb isValid ids = false).
  { apply not_true_is_false. intros Hall.
    rewrite forallb_forall in Hall.
    apply list_elem_of_In in Hin. by rewrite (Hall bad Hin) in Hbad. }
  unfold markRead, put_mark_read, cast_ids. simpl. rewrite Hall.
  split; [done |].
  destruct ids as [| i ids]; [| done]. by apply elem_of_nil in Hin.
Qed.

End MarkReadEdges.

(* ===================================================================== *)
(** * The further properties at concrete inputs *)
(* ===================================================================== *)

Lemma hello_store_conversation :
  find (@conversation_is (@canonical hex_oids (oid_of_nat 1)))
       (conversations (store server_after_hello))
  = Some hello_conversation.
Proof. by vm_compute. Qed.

(** Alice answers bob's first message with a direct send: it is linked
    to the conversation that bob's message made, which stays the only
    one of the pair. *)
Lemma direct_send_links_one_conversation_witness :
  let s' := (@sendMessage hex_oids alice 200 text_to_bob
               server_after_hello).1 in
  ∃ m c,
    last (messages (store s')) = Some m
    ∧ c ∈ conversations (store s')
    ∧ Message.conversation m = Some (Conversation._id c)
    ∧ @match_pair [@canonical hex_oids alice; @canonical hex_oids bob] c
      = true
    ∧ Conversation.lastMessage c
      = Some (preview_of (default [] (sm_content text_to_bob))
                (default [] (sm_attachments text_to_bob)))
    ∧ Conversation.lastMessageFrom c = Some (@canonical hex_oids alice)
    ∧ @count_pair [@canonical hex_oids alice; @canonical hex_oids bob]
        (store s')
      = max 1 (@count_pair
                 [@canonical hex_oids alice; @canonical hex_oids bob]
                 (store server_after_hello)).
Proof.
  apply (@direct_send_links_one_conversation hex_oids alice 200 text_to_bob
           server_after_hello bob); by vm_compute.
Defined.

Lemma direct_send_raises_receiver_unread_count_witness :
  let s' := (@sendMessage hex_oids alice 200 text_to_bob
               server_after_hello).1 in
  ∃ n,
    @get_unread_count hex_oids bob (store server_after_hello)
    = Reply 200 (RCount n)
    ∧ @get_unread_count hex_oids bob (store s') = Reply 200 (RCount (S n))
    ∧ ∀ other, @canonical hex_oids other ≠ @canonical hex_oids bob →
        @get_unread_count hex_oids other (store s')
        = @get_unread_count hex_oids other (store server_after_hello).
Proof.
  apply (@direct_send_raises_receiver_unread_count hex_oids alice 200
           text_to_bob server_after_hello bob); by vm_compute.
Defined.

(** Alice's note to herself lands in her conversation with bob. *)
Lemma self_send_joins_shared_conversation_witness :
  let s' := (@sendMessage hex_oids alice 200 note_to_self
               server_after_hello).1 in
  ∃ m,
    last (messages (store s')) = Some m
    ∧ Message.sender m = @canonical hex_oids alice
    ∧ Message.receiver m = @canonical hex_oids alice
    ∧ Message.conversation m = Some (Conversation._id hello_conversation)
    ∧ length (conversations (store s'))
      = length (conversations (store server_after_hello))
    ∧ ∀ other cid now',
        @canonical hex_oids other
        ∈ Conversation.participants hello_conversation →
        @isValid hex_oids other = true →
        @isValid hex_oids cid = true →
        @canonical hex_oids cid = Conversation._id hello_conversation →
        ∃ history,
          (@get_messages hex_oids other now' cid (store s')).2
          = Respond 200 (BData history)
          ∧ m ∈ history.
Proof.
  apply (@self_send_joins_shared_conversation hex_oids alice 200 note_to_self
           server_after_hello hello_conversation); by vm_compute.
Defined.

(** Carol, who is in no conversation, sends into the conversation of
    alice and bob. *)
Lemma socket_send_skips_participant_check_witness :
  @post_conversation_message hex_oids carol 200 (oid_of_nat 1)
    (Some (lit "hi back")) (store server_after_hello)
  = (store server_after_hello,
     Reply 404 (RText "Conversation not found or you are not a participant"))
  ∧ ∃ m c',
      messages (store (@newMessage hex_oids carol 200 reply_in_conversation
                         server_after_hello).1)
      = messages (store server_after_hello) ++ [m]
      ∧ Message.sender m = @canonical hex_oids carol
      ∧ Message.receiver m = bob
      ∧ Message.conversation m = Some (@canonical hex_oids (oid_of_nat 1))
      ∧ find (@conversation_is (@canonical hex_oids (oid_of_nat 1)))
          (conversations
             (store (@newMessage hex_oids carol 200 reply_in_conversation
                       server_after_hello).1)) = Some c'
      ∧ Conversation.unreadCount c'
        = (Conversation.unreadCount hello_conversation + 1)%Z
      ∧ Conversation.lastMessageFrom c' = Some (@canonical hex_oids carol).
Proof.
  apply (@socket_send_skips_participant_check hex_oids carol 200
           (oid_of_nat 1) (lit "hi back") server_after_hello
           hello_conversation bob [alice]);
    try (by vm_compute).
  intros c' Hc' _ Hin. vm_compute in Hc'.
  apply list_elem_of_singleton in Hc'. subst c'. vm_compute in Hin.
  repeat (apply elem_of_cons in Hin as [Heq | Hin]; [discriminate Heq |]).
  by apply elem_of_nil in Hin.
Defined.

(** Alice replies in the conversation while bob is on one socket. *)
Lemma conversation_send_delivery_witness :
  let s := mkServer store_after_hello (onlineUsers bob_online)
             (rooms bob_online) in
  let r := @newMessage hex_oids alice 200 reply_in_conversation s in
  ∃ m,
    last (messages (store r.1)) = Some m
    ∧ Message.content m = trim (lit "hi back") ∧ Message.attachments m = []
    ∧ Emit ToSender "newMessage" (PNewMessage (oid_of_nat 1) m (Some alice))
      ∈ r.2
    ∧ Emit ToSender "messageSaved" (PMessage m) ∈ r.2
    ∧ Emit (ToRoom bob) "newMessage"
        (PNewMessage (oid_of_nat 1) m (Some alice)) ∈ r.2
    ∧ Emit (ToRoom bob) "receiveMessage" (PMessage m) ∈ r.2
    ∧ (∀ h, onlineUsers s !! bob = Some h → h ≠ "" →
            Emit (ToRoom h) "newMessage"
              (PNewMessage (oid_of_nat 1) m (Some alice)) ∈ r.2
            ∧ Emit (ToRoom h) "receiveMessage" (PMessage m) ∈ r.2)
    ∧ (∀ e, e ∈ r.2 →
            to e = ToSender ∨ to e = ToRoom bob
            ∨ ∃ h, onlineUsers s !! bob = Some h ∧ to e = ToRoom h).
Proof.
  apply (@conversation_send_delivery hex_oids alice 200 (oid_of_nat 1)
           (lit "hi back")
           (mkServer store_after_hello (onlineUsers bob_online)
              (rooms bob_online))
           hello_conversation bob); by vm_compute.
Defined.

(** Alice sends into the conversation that her note to herself made. *)
Lemma conversation_send_without_recipient_witness :
  @newMessage hex_oids alice 200 reply_in_conversation solo_server
  = (solo_server, [error "Recipient not found in conversation" None]).
Proof.
  assert (Hc : ∃ c, find (@conversation_is (@canonical hex_oids (oid_of_nat 1)))
                      (conversations (store solo_server)) = Some c
                    ∧ Conversation.participants c = [alice; alice])
    by (vm_compute; by eexists).
  destruct Hc as (c & Hc & Hps).
  apply (@conversation_send_without_recipient hex_oids alice 200
           (oid_of_nat 1) (lit "hi back") solo_server c);
    [discriminate | reflexivity | reflexivity | exact Hc |].
  rewrite Hps. by repeat constructor.
Defined.

Lemma conversation_send_dialects_agree_witness :
  let dH := (@post_conversation_message hex_oids alice 200 (oid_of_nat 1)
               (Some (lit "hi back")) (store server_after_hello)).1 in
  let dS := store (@newMessage hex_oids alice 200 reply_in_conversation
                     server_after_hello).1 in
  messages dH = messages dS
  ∧ Forall2
      (fun cH cS =>
         Conversation._id cH = Conversation._id cS
         ∧ Conversation.participants cH = Conversation.participants cS
         ∧ Conversation.lastMessageText cH = Conversation.lastMessageText cS
         ∧ Conversation.lastMessageFrom cH = Conversation.lastMessageFrom cS
         ∧ Conversation.lastMessageAt cH = Conversation.lastMessageAt cS
         ∧ Conversation.unreadCount cH = Conversation.unreadCount cS
         ∧ Conversation.createdAt cH = Conversation.createdAt cS)
      (conversations dH) (conversations dS)
  ∧ ∃ cH cS,
      find (@conversation_is (@canonical hex_oids (oid_of_nat 1)))
        (conversations dH) = Some cH
      ∧ find (@conversation_is (@canonical hex_oids (oid_of_nat 1)))
          (conversations dS) = Some cS
      ∧ Conversation.unreadCount cH
        = (Conversation.unreadCount hello_conversation + 1)%Z
      ∧ Conversation.lastMessageId cH
        = Some (Message._id
                  (@filed hex_oids (store server_after_hello) 200
                     (oid_of_nat 1) alice bob (lit "hi back")))
      ∧ Conversation.lastMessageId cS
        = Conversation.lastMessageId hello_conversation.
Proof.
  apply (@conversation_send_dialects_agree hex_oids alice 200 (oid_of_nat 1)
           (lit "hi back") server_after_hello hello_conversation bob);
    try (by vm_compute).
  vm_compute. apply list_elem_of_further, list_elem_of_here.
Defined.

Lemma http_then_socket_send_stores_twice_witness :
  let d1 := (@post_conversation_message hex_oids alice 200 (oid_of_nat 1)
               (Some (lit "hi back")) (store server_after_hello)).1 in
  let s1 := mkServer d1 (onlineUsers server_after_hello)
              (rooms server_after_hello) in
  let s2 := (@newMessage hex_oids alice 201 reply_in_conversation s1).1 in
  ∃ m1 m2 c2,
    messages (store s2) = messages (store server_after_hello) ++ [m1; m2]
    ∧ Message.content m1 = trim (lit "hi back")
    ∧ Message.content m2 = trim (lit "hi back")
    ∧ Message.sender m1 = @canonical hex_oids alice
    ∧ Message.sender m2 = @canonical hex_oids alice
    ∧ Message.receiver m1 = bob ∧ Message.receiver m2 = bob
    ∧ find (@conversation_is (@canonical hex_oids (oid_of_nat 1)))
        (conversations (store s2)) = Some c2
    ∧ Conversation.unreadCount c2
      = (Conversation.unreadCount hello_conversation + 2)%Z.
Proof.
  apply (@http_then_socket_send_stores_twice hex_oids alice 200 201
           (oid_of_nat 1) (lit "hi back") server_after_hello
           hello_conversation bob);
    try (by vm_compute).
  vm_compute. apply list_elem_of_further, list_elem_of_here.
Defined.

Lemma delete_leaves_conversation_as_sent_witness :
  let sent := store (@newMessage hex_oids alice 200 reply_in_conversation
                       server_after_hello).1 in
  ∃ c',
    (@delete_message hex_oids (oid_of_nat 2) sent).2
    = Reply 200 (RText "Message deleted successfully")
    ∧ messages (@delete_message hex_oids (oid_of_nat 2) sent).1
      = messages (store server_after_hello)
    ∧ conversations (@delete_message hex_oids (oid_of_nat 2) sent).1
      = conversations sent
    ∧ find (@conversation_is (@canonical hex_oids (oid_of_nat 1)))
        (conversations (@delete_message hex_oids (oid_of_nat 2) sent).1)
      = Some c'
    ∧ Conversation.lastMessage c' = Some (trim (lit "hi back"))
    ∧ Conversation.unreadCount c'
      = (Conversation.unreadCount hello_conversation + 1)%Z
    ∧ @delete_message hex_oids (oid_of_nat 2)
        (@delete_message hex_oids (oid_of_nat 2) sent).1
      = ((@delete_message hex_oids (oid_of_nat 2) sent).1,
         Reply 404 (RText "Message not found")).
Proof.
  apply (@delete_leaves_conversation_as_sent hex_oids alice 200 (oid_of_nat 1)
           (lit "hi back") server_after_hello hello_conversation bob
           (oid_of_nat 2));
    try (by vm_compute).
  intros m Hm. vm_compute in Hm. apply list_elem_of_singleton in Hm.
  subst m. by vm_compute.
Defined.

(** Alice fetches the conversation of bob's unread message. *)
Lemma fetch_history_is_sorted_snapshot_witness :
  [hello_message]
  ≡ₚ filter (fun m => Message.conversation m
                      = Some (@canonical hex_oids (oid_of_nat 1)))
       (messages store_after_hello)
  ∧ StronglySorted created_before [hello_message]
  ∧ ∀ m, m ∈ [hello_message] →
         Message.sender m ≠ @canonical hex_oids alice →
         Message.read m = false →
         m ∉ messages (@get_messages hex_oids alice 300 (oid_of_nat 1)
                         store_after_hello).1.
Proof.
  apply (@fetch_history_is_sorted_snapshot hex_oids alice 300 (oid_of_nat 1)
           store_after_hello [hello_message]).
  by vm_compute.
Defined.

Lemma fetch_lowers_unread_count_witness :
  ∃ n,
    @get_unread_count hex_oids alice
      (@get_messages hex_oids alice 300 (oid_of_nat 1) store_after_hello).1
    = Reply 200 (RCount n)
    ∧ @get_unread_count hex_oids alice store_after_hello
      = Reply 200
          (RCount (n + length
                         (filter (fun m => Message.receiver m
                                           = @canonical hex_oids alice
                                           ∧ @unread_from_other
                                               (@canonical hex_oids
                                                  (oid_of_nat 1))
                                               (@canonical hex_oids alice) m
                                             = true)
                                 (messages store_after_hello)))).
Proof.
  apply (@fetch_lowers_unread_count hex_oids alice 300 (oid_of_nat 1)
           store_after_hello [hello_message]).
  by vm_compute.
Defined.

Lemma mark_read_of_unknown_ids_is_acknowledged_witness :
  store (@markRead hex_oids 200 (Some [oid_of_nat 7]) server_after_hello).1
  = store server_after_hello
  ∧ (@markRead hex_oids 200 (Some [oid_of_nat 7]) server_after_hello).2
    = [Emit ToSender "readReceipt" (PReadReceipt (Some [oid_of_nat 7]))]
  ∧ @put_mark_read hex_oids 200 (Some [oid_of_nat 7])
      (store server_after_hello)
    = (store server_after_hello, Respond 200 (BMarked 0)).
Proof.
  apply (@mark_read_of_unknown_ids_is_acknowledged hex_oids 200
           [oid_of_nat 7] server_after_hello); try (by vm_compute).
  intros m Hm Hin. vm_compute in Hm. apply list_elem_of_singleton in Hm.
  subst m. vm_compute in Hin. apply list_elem_of_singleton in Hin.
  discriminate Hin.
Defined.

Lemma mark_read_with_malformed_id_marks_nothing_witness :
  @markRead hex_oids 200 (Some [oid_of_nat 0; "nope"]) server_after_hello
  = (server_after_hello, [])
  ∧ @put_mark_read hex_oids 200 (Some [oid_of_nat 0; "nope"])
      (store server_after_hello)
    = (store server_after_hello, Respond 500 (BThrown (CastError "_id"))).
Proof.
  apply (@mark_read_with_malformed_id_marks_nothing hex_oids 200
           [oid_of_nat 0; "nope"] "nope" server_after_hello);
    [apply list_elem_of_further, list_elem_of_here | reflexivity].
Defined.
